(** * onlyfunding SDK (python/fundity_sdk.py): a shallow embedding

    The client fetches one JSON document, reads single rates out of it and
    compares every pair of exchanges quoting a symbol.  The development
    follows the file top to bottom:

    - [Float64]  Python's [float] (IEEE 754 binary64) on the Standard
                 Library's executable specification [spec_float];
    - [Py]       exceptions and the error monad that threads them;
    - [Dict]     insertion-ordered dictionaries;
    - [Json], [Http]  what [requests] hands to [get_funding_rates];
    - [Sdk]      [get_funding_rates], [get_rate],
                 [find_arbitrage_opportunities];
    - the properties. *)

From Stdlib Require Import ZArith List String Ascii Bool Lia.
From Stdlib Require Import Sorted Permutation.
From Stdlib Require Import SpecFloat.
Import ListNotations.

Local Open Scope Z_scope.

(* ------------------------------------------------------------------ *)
(** ** Python floats *)

Module Float64.

(** A Python [float] is an IEEE 754 double: 53 bits of precision,
    infinities at exponent 1024. *)
Definition float := spec_float.
Definition prec : Z := 53.
Definition emax : Z := 1024.

(** The integer [z] rounded to the nearest double, ties to even.  An
    integer beyond the largest double rounds to an infinity. *)
Definition of_Z (z : Z) : float := binary_normalize prec emax z 0 false.

Definition div (x y : float) : float := SFdiv prec emax x y.
Definition ltb (x y : float) : bool := SFltb x y.
Definition leb (x y : float) : bool := SFleb x y.
Definition eqb (x y : float) : bool := SFeqb x y.
(** [x >= y] *)
Definition geb (x y : float) : bool := SFleb y x.

Definition is_infinity (x : float) : bool :=
  match x with S754_infinity _ => true | _ => false end.
Definition is_nan (x : float) : bool :=
  match x with S754_nan => true | _ => false end.

(** The literal [10000.0]. *)
Definition ten_thousand : float := Eval vm_compute in of_Z 10000.

(** The literal [0.0]. *)
Definition zero : float := S754_zero false.

End Float64.

Abbreviation float := Float64.float.

(* ------------------------------------------------------------------ *)
(** ** Exceptions and the error monad *)

Module Py.

(** The exceptions at play.  The first three stand for what [requests]
    raises: any failure of [session.get] itself, the [HTTPError] of
    [raise_for_status], and the [JSONDecodeError] of [Response.json].
    Each carries [str(e)]. *)
Inductive exn : Type :=
| ConnectionError (msg : string)
| HTTPError (msg : string)
| JSONDecodeError (msg : string)
| AttributeError (msg : string)
| OverflowError
| KeyError (key : string)
| onlyfundingError (msg : string).

(** [isinstance(e, requests.exceptions.RequestException)].  setup.py
    requires requests >= 2.28.0, whose [JSONDecodeError] derives from
    both [RequestException] and [ValueError]. *)
Definition is_RequestException (e : exn) : bool :=
  match e with
  | ConnectionError _ | HTTPError _ | JSONDecodeError _ => true
  | _ => false
  end.

(** [isinstance(e, (KeyError, ValueError))] *)
Definition is_KeyError_or_ValueError (e : exn) : bool :=
  match e with
  | JSONDecodeError _ | KeyError _ => true
  | _ => false
  end.

(** [str(e)] *)
Definition str (e : exn) : string :=
  match e with
  | ConnectionError m | HTTPError m | JSONDecodeError m
  | AttributeError m | onlyfundingError m => m
  | OverflowError => "int too large to convert to float"
  | KeyError k => "'" ++ k ++ "'"
  end.

Inductive outcome (A : Type) : Type :=
| Returns (a : A)
| Raises (e : exn).
Arguments Returns {A} a.
Arguments Raises {A} e.

Definition bind {A B} (m : outcome A) (k : A -> outcome B) : outcome B :=
  match m with
  | Returns a => k a
  | Raises e => Raises e
  end.

(** [int(z)] converted for a float operation: CPython rounds to 53 bits
    and raises [OverflowError] ("int too large to convert to float")
    when the rounded value is beyond the largest double. *)
Definition int_to_float (z : Z) : outcome float :=
  let f := Float64.of_Z z in
  if Float64.is_infinity f then Raises OverflowError else Returns f.

(** [z / 10000.0] for an [int] z. *)
Definition div_10000 (z : Z) : outcome float :=
  bind (int_to_float z)
       (fun f => Returns (Float64.div f Float64.ten_thousand)).

End Py.

Import Py.

Declare Scope py_scope.
Delimit Scope py_scope with py.
Notation "x <- m ;; k" := (Py.bind m (fun x => k))
  (at level 61, m at next level, right associativity) : py_scope.
Local Open Scope py_scope.

(* ------------------------------------------------------------------ *)
(** ** Dictionaries

    A Python [dict] keeps its keys in insertion order and
    [find_arbitrage_opportunities] enumerates in that order, so a
    dictionary is the list of its items.  A list is a dictionary when no
    key repeats ([wf]). *)

Module Dict.

Definition dict (V : Type) : Type := list (string * V).

Definition empty {V} : dict V := [].

(** [d.get(k)], [None] when the key is absent *)
Fixpoint get {V} (d : dict V) (k : string) : option V :=
  match d with
  | [] => None
  | (k', v) :: d' => if String.eqb k k' then Some v else get d' k
  end.

(** [k in d] *)
Definition mem {V} (k : string) (d : dict V) : bool :=
  match get d k with Some _ => true | None => false end.

(** [d[k] = v]: an existing key keeps its position, a new key goes last *)
Fixpoint set {V} (d : dict V) (k : string) (v : V) : dict V :=
  match d with
  | [] => [(k, v)]
  | (k', v') :: d' =>
      if String.eqb k k' then (k', v) :: d' else (k', v') :: set d' k v
  end.

(** [list(d.keys())] *)
Definition keys {V} (d : dict V) : list string := map fst d.

(** [d.items()] *)
Definition items {V} (d : dict V) : list (string * V) := d.

(** [d[k]] *)
Definition getitem {V} (d : dict V) (k : string) : outcome V :=
  match get d k with
  | Some v => Returns v
  | None => Raises (KeyError k)
  end.

Fixpoint inb (k : string) (l : list string) : bool :=
  match l with
  | [] => false
  | k' :: l' => String.eqb k k' || inb k l'
  end.

Fixpoint nodupb (l : list string) : bool :=
  match l with
  | [] => true
  | k :: l' => negb (inb k l') && nodupb l'
  end.

(** no key occurs twice *)
Definition wf {V} (d : dict V) : bool := nodupb (keys d).

End Dict.

Abbreviation dict := Dict.dict.

(* ------------------------------------------------------------------ *)
(** ** JSON values, as [response.json()] returns them *)

Module Json.

Local Unset Elimination Schemes.
Inductive value : Type :=
| Null
| Bool (b : bool)
| Int (z : Z)
| Float (f : float)
| Str (s : string)
| Array (l : list value)
| Object (fields : dict value).
Local Set Elimination Schemes.

(** [type(v).__name__] *)
Definition type_name (v : value) : string :=
  match v with
  | Null => "NoneType"
  | Bool _ => "bool"
  | Int _ => "int"
  | Float _ => "float"
  | Str _ => "str"
  | Array _ => "list"
  | Object _ => "dict"
  end.

(** [data.get(key, default)]: only a dict has the method *)
Definition get (data : value) (key : string) (default : value)
  : outcome value :=
  match data with
  | Object fields =>
      Returns (match Dict.get fields key with
               | Some v => v
               | None => default
               end)
  | _ =>
      Raises (AttributeError
                ("'" ++ type_name data ++ "' object has no attribute 'get'"))
  end.

Fixpoint traverse {A B} (f : A -> option B) (l : list A) : option (list B) :=
  match l with
  | [] => Some []
  | a :: l' =>
      match f a, traverse f l' with
      | Some b, Some bs => Some (b :: bs)
      | _, _ => None
      end
  end.

(** a value of the declared type [Dict[str, int]] *)
Definition as_int_dict (v : value) : option (dict Z) :=
  match v with
  | Object fields =>
      traverse (fun kv => match snd kv with
                          | Int z => Some (fst kv, z)
                          | _ => None
                          end) fields
  | _ => None
  end.

(** a value of the declared type [Dict[str, Dict[str, int]]] *)
Definition as_rates (v : value) : option (dict (dict Z)) :=
  match v with
  | Object fields =>
      traverse (fun kv => match as_int_dict (snd kv) with
                          | Some d => Some (fst kv, d)
                          | None => None
                          end) fields
  | _ => None
  end.

End Json.

(* ------------------------------------------------------------------ *)
(** ** The HTTP exchange

    [requests] is outside the repository; what the client observes of
    one [session.get] is recorded here. *)

Module Http.

Record response : Type := {
  status_code : Z;
  (** [str] of the [HTTPError] that [raise_for_status] builds *)
  http_error_msg : string;
  (** the decoded body, or [str] of the decoding error *)
  json : string + Json.value
}.

Inductive reply : Type :=
| Failed (cause : string)
| Responded (r : response).

(** [session.get(...)]: the response, or the exception of a failed
    connection, a timeout and the like. *)
Definition session_get (h : reply) : outcome response :=
  match h with
  | Failed cause => Raises (ConnectionError cause)
  | Responded r => Returns r
  end.

(** [Response.raise_for_status]: an [HTTPError] for a 4xx or 5xx status,
    nothing otherwise. *)
Definition raise_for_status (r : response) : outcome unit :=
  if (400 <=? status_code r) && (status_code r <? 600)
  then Raises (HTTPError (http_error_msg r))
  else Returns tt.

(** [Response.json] *)
Definition response_json (r : response) : outcome Json.value :=
  match json r with
  | inl msg => Raises (JSONDecodeError msg)
  | inr data => Returns data
  end.

End Http.

(* ------------------------------------------------------------------ *)
(** ** The client *)

Module Sdk.

Import Json Http.

(** [FundingRatesData]: the dataclass stores what [data.get] returned,
    unchecked. *)
Record FundingRatesData : Type := {
  symbols : Json.value;
  exchanges : Json.value;
  funding_rates : Json.value;
  oi_rankings : Json.value;
  default_oi_rank : Json.value;
  timestamp : Json.value
}.

(** Lines 67-82: the body of the [try] block. *)
Definition fetch (h : reply) : outcome FundingRatesData :=
  response <- session_get h ;;
  _ <- raise_for_status response ;;
  data <- response_json response ;;
  symbols <- Json.get data "symbols" (Array []) ;;
  exchanges <- Json.get data "exchanges" (Object []) ;;
  funding_rates <- Json.get data "funding_rates" (Object []) ;;
  oi_rankings <- Json.get data "oi_rankings" (Object []) ;;
  default_oi_rank <- Json.get data "default_oi_rank" (Str "500+") ;;
  timestamp <- Json.get data "timestamp" (Str "") ;;
  Returns {| symbols := symbols;
             exchanges := exchanges;
             funding_rates := funding_rates;
             oi_rankings := oi_rankings;
             default_oi_rank := default_oi_rank;
             timestamp := timestamp |}.

Definition transport_prefix : string := "Failed to fetch funding rates: ".
Definition malformed_prefix : string := "Invalid API response: ".

(** Lines 83-86: the two [except] clauses, tried in order; an exception
    that matches neither propagates. *)
Definition handle (e : exn) : exn :=
  if is_RequestException e then
    onlyfundingError (transport_prefix ++ str e)
  else if is_KeyError_or_ValueError e then
    onlyfundingError (malformed_prefix ++ str e)
  else e.

Definition get_funding_rates (h : reply) : outcome FundingRatesData :=
  match fetch h with
  | Returns data => Returns data
  | Raises e => Raises (handle e)
  end.

(** [data.funding_rates] at its declared type. *)
Definition rates_table : Type := dict (dict Z).

(** [get_rate], from the snapshot on (lines 101-106). *)
Definition get_rate (funding_rates : rates_table) (exchange symbol : string)
  : outcome (option float) :=
  match Dict.get funding_rates exchange with
  | Some symbols =>
      match Dict.get symbols symbol with
      | Some rate => r <- div_10000 rate ;; Returns (Some r)
      | None => Returns None
      end
  | None => Returns None
  end.

(** One entry of the list [find_arbitrage_opportunities] returns. *)
Record Opportunity : Type := {
  symbol : string;
  exchange1 : string;
  rate1 : float;
  exchange2 : string;
  rate2 : float;
  spread : float;
  long_exchange : string;
  short_exchange : string
}.

(** Lines 127-130: the rates quoted for [symbol], by exchange. *)
Fixpoint collect_rates (items : list (string * dict Z)) (symbol : string)
         (rates : dict Z) : dict Z :=
  match items with
  | [] => rates
  | (exchange, symbols) :: items' =>
      match Dict.get symbols symbol with
      | Some rate => collect_rates items' symbol (Dict.set rates exchange rate)
      | None => collect_rates items' symbol rates
      end
  end.

(** Lines 138-153: the inner loop over [exchanges[i+1:]]. *)
Fixpoint inner_loop (rates : dict Z) (symbol : string) (min_spread : float)
         (exchange1 : string) (rest : list string)
         (opportunities : list Opportunity) : outcome (list Opportunity) :=
  match rest with
  | [] => Returns opportunities
  | exchange2 :: rest' =>
      rate1 <- Dict.getitem rates exchange1 ;;
      rate2 <- Dict.getitem rates exchange2 ;;
      spread <- div_10000 (Z.abs (rate1 - rate2)) ;;
      if Float64.geb spread min_spread then
        r1 <- div_10000 rate1 ;;
        r2 <- div_10000 rate2 ;;
        inner_loop rates symbol min_spread exchange1 rest'
          (opportunities ++
             [{| symbol := symbol;
                 exchange1 := exchange1;
                 rate1 := r1;
                 exchange2 := exchange2;
                 rate2 := r2;
                 spread := spread;
                 long_exchange :=
                   if rate1 <? rate2 then exchange1 else exchange2;
                 short_exchange :=
                   if rate1 <? rate2 then exchange2 else exchange1 |}])
      else
        inner_loop rates symbol min_spread exchange1 rest' opportunities
  end.

(** Line 137: the outer loop over [enumerate(exchanges)]. *)
Fixpoint outer_loop (rates : dict Z) (symbol : string) (min_spread : float)
         (exchanges : list string) (opportunities : list Opportunity)
  : outcome (list Opportunity) :=
  match exchanges with
  | [] => Returns opportunities
  | exchange1 :: rest =>
      opportunities' <-
        inner_loop rates symbol min_spread exchange1 rest opportunities ;;
      outer_loop rates symbol min_spread rest opportunities'
  end.

(** [list.sort(key=..., reverse=True)].  CPython reverses the list,
    sorts it stably in ascending order comparing keys with [<] only, and
    reverses it again.  The stable ascending sort is an insertion sort
    here: for keys without NaN every stable sort gives the same list. *)
Section Sort.
Context {A : Type} (key : A -> float).

Fixpoint insert (x : A) (l : list A) : list A :=
  match l with
  | [] => [x]
  | y :: l' =>
      if Float64.ltb (key y) (key x) then y :: insert x l' else x :: l
  end.

Definition sort_ascending (l : list A) : list A :=
  fold_right insert [] l.

Definition sort_reverse (l : list A) : list A :=
  rev (sort_ascending (rev l)).
End Sort.

(** [find_arbitrage_opportunities], from the snapshot on
    (lines 124-158). *)
Definition find_arbitrage_opportunities (funding_rates : rates_table)
           (symbol : string) (min_spread : float)
  : outcome (list Opportunity) :=
  let opportunities : list Opportunity := [] in
  let rates := collect_rates (Dict.items funding_rates) symbol Dict.empty in
  if (List.length rates <? 2)%nat then Returns opportunities
  else
    let exchanges := Dict.keys rates in
    opportunities <- outer_loop rates symbol min_spread exchanges opportunities ;;
    Returns (sort_reverse spread opportunities).

End Sdk.

Import Sdk.

(* ------------------------------------------------------------------ *)
(** * Vocabulary of the properties *)

(** [x] occurs in [l] at a position before an occurrence of [y] *)
Definition precedes {A} (l : list A) (x y : A) : Prop :=
  exists l1 l2 l3, l = l1 ++ x :: l2 ++ y :: l3.

(** [r / 10000.0] as a double: the double nearest to [r], divided by
    [10000.0] with IEEE rounding. *)
Definition normalized (r : Z) : float :=
  Float64.div (Float64.of_Z r) Float64.ten_thousand.

(** The conversion of [z] to a double stays below the infinities. *)
Definition fits (z : Z) : bool := negb (Float64.is_infinity (Float64.of_Z z)).

(** [|rate_a - rate_b| / 10000.0] *)
Definition spread_of (rate_a rate_b : Z) : float :=
  normalized (Z.abs (rate_a - rate_b)).

(** [funding_rates[exchange][symbol]], when both keys are present *)
Definition raw_rate (funding_rates : rates_table) (exchange symbol : string)
  : option Z :=
  match Dict.get funding_rates exchange with
  | Some symbols => Dict.get symbols symbol
  | None => None
  end.

(** the items of the snapshot whose rate table contains [symbol] *)
Definition quoting (funding_rates : rates_table) (symbol : string)
  : list (string * dict Z) :=
  filter (fun item => Dict.mem symbol (snd item)) funding_rates.

(** the qualifying exchanges, in the order of the snapshot *)
Definition qualifying (funding_rates : rates_table) (symbol : string)
  : list string :=
  map fst (quoting funding_rates symbol).

(** the rates of the qualifying exchanges, in the order of the snapshot *)
Definition quoted (funding_rates : rates_table) (symbol : string) : dict Z :=
  flat_map (fun item => match Dict.get (snd item) symbol with
                        | Some rate => [(fst item, rate)]
                        | None => []
                        end) funding_rates.

(** The pairs the two loops visit, in the order they visit them: every
    element with each later one. *)
Fixpoint all_pairs {A} (l : list A) : list (A * A) :=
  match l with
  | [] => []
  | x :: l' => map (pair x) l' ++ all_pairs l'
  end.

Definition rate_of (rates : dict Z) (exchange : string) : Z :=
  match Dict.get rates exchange with Some r => r | None => 0 end.

(** the dictionary appended for a pair (lines 144-153) *)
Definition opportunity (sym : string) (a : string) (rate_a : Z)
           (b : string) (rate_b : Z) : Opportunity :=
  {| symbol := sym;
     exchange1 := a;
     rate1 := normalized rate_a;
     exchange2 := b;
     rate2 := normalized rate_b;
     spread := spread_of rate_a rate_b;
     long_exchange := if rate_a <? rate_b then a else b;
     short_exchange := if rate_a <? rate_b then b else a |}.

Definition opportunity_of (rates : dict Z) (sym : string)
           (p : string * string) : Opportunity :=
  opportunity sym (fst p) (rate_of rates (fst p)) (snd p) (rate_of rates (snd p)).

(** the test of line 143 *)
Definition keeps (min_spread : float) (o : Opportunity) : bool :=
  Float64.geb (spread o) min_spread.

(** what the loops append while they go through [pairs] *)
Definition visit (rates : dict Z) (sym : string) (min_spread : float)
           (pairs : list (string * string)) : list Opportunity :=
  filter (keeps min_spread) (map (opportunity_of rates sym) pairs).

(** the opportunities in the order the loops append them, on a snapshot
    that is a dictionary *)
Definition visited (funding_rates : rates_table) (sym : string)
           (min_spread : float) : list Opportunity :=
  visit (quoted funding_rates sym) sym min_spread
        (all_pairs (qualifying funding_rates sym)).

(** orders and classes of a sort key *)
Definition ascending_by {A} (key : A -> float) (a b : A) : Prop :=
  Float64.leb (key a) (key b) = true.
Definition descending_by {A} (key : A -> float) (a b : A) : Prop :=
  Float64.geb (key a) (key b) = true.
Definition no_nan_key {A} (key : A -> float) (a : A) : Prop :=
  Float64.is_nan (key a) = false.
Definition same_key {A} (key : A -> float) (k : float) (a : A) : bool :=
  Float64.eqb (key a) k.

(** every conversion the loops may attempt stays in range *)
Definition all_fit (rates : dict Z) : bool :=
  forallb (fun a =>
             fits (snd a) &&
             forallb (fun b => fits (Z.abs (snd a - snd b))) rates)
          rates.

(** every rate quoted for [sym] is below [2 ^ 1022] in absolute value, far
    beyond any rate a double could have carried *)
Definition rates_in_range (funding_rates : rates_table) (sym : string)
  : Prop :=
  forall exchange r,
    raw_rate funding_rates exchange sym = Some r -> Z.abs r < 2 ^ 1022.

(** [o] compares the exchanges [a] and [b], in either order *)
Definition compares (o : Opportunity) (a b : string) : Prop :=
  (exchange1 o = a /\ exchange2 o = b) \/ (exchange1 o = b /\ exchange2 o = a).

(** the value [data.get(key, default)] stores *)
Definition field_or (fields : dict Json.value) (key : string)
           (default : Json.value) : Json.value :=
  match Dict.get fields key with Some v => v | None => default end.

(* ------------------------------------------------------------------ *)
(** * Worked inputs *)

(** the snapshot of the specification's example *)
Definition example_table : rates_table :=
  [("ex_a", [("BTC", 100)]); ("ex_b", [("BTC", 300)]);
   ("ex_c", [("BTC", 50)])]%string.

(** the literal [0.01] *)
Definition one_hundredth : float :=
  Eval vm_compute in Float64.div (Float64.of_Z 1) (Float64.of_Z 100).

(** what [find_arbitrage_opportunities("BTC", 0.01)] returns on it *)
Definition example_result : list Opportunity :=
  [opportunity "BTC" "ex_b" 300 "ex_c" 50;
   opportunity "BTC" "ex_a" 100 "ex_b" 300].

(** two exchanges quoting the same rate *)
Definition tie_table : rates_table :=
  [("ex_a", [("BTC", 100)]); ("ex_b", [("BTC", 100)])]%string.

(** a snapshot whose only spread is exactly [0.01] *)
Definition boundary_table : rates_table :=
  [("ex_a", [("BTC", 100)]); ("ex_b", [("BTC", 0)])]%string.

(** a 200 response whose body is the empty object *)
Definition empty_object_response : Http.response :=
  {| Http.status_code := 200;
     Http.http_error_msg := "";
     Http.json := inr (Json.Object []) |}.

(** a 300 Multiple Choices response, which [requests] hands over as it
    is (300 is not among the statuses it follows as redirects), with a
    JSON object for a body *)
Definition multiple_choices_response : Http.response :=
  {| Http.status_code := 300;
     Http.http_error_msg := "";
     Http.json :=
       inr (Json.Object
              [("choices",
                Json.Array [Json.Str "/v1/funding"; Json.Str "/v2/funding"])]%string) |}.

(* ------------------------------------------------------------------ *)
(** * The callers, and more vocabulary *)

(** The two methods as the caller runs them: line 99, respectively 123,
    fetches the snapshot, whose exceptions pass through, and the rest works
    on [data.funding_rates].  [None] stands for a snapshot whose
    [funding_rates] is not of the declared type
    [Dict[str, Dict[str, int]]], where the methods are not modelled. *)
Definition on_funding_rates {A} (h : Http.reply)
           (rest : rates_table -> outcome A) : option (outcome A) :=
  match get_funding_rates h with
  | Raises e => Some (Raises e)
  | Returns data =>
      match Json.as_rates (funding_rates data) with
      | Some table => Some (rest table)
      | None => None
      end
  end.

Definition get_rate_call (h : Http.reply) (exchange symbol : string)
  : option (outcome (option float)) :=
  on_funding_rates h (fun table => get_rate table exchange symbol).

Definition find_arbitrage_opportunities_call (h : Http.reply)
           (symbol : string) (min_spread : float)
  : option (outcome (list Opportunity)) :=
  on_funding_rates h
    (fun table => find_arbitrage_opportunities table symbol min_spread).

(** examples/python_example.py, lines 21-25: [if btc_rate:] prints the
    rate, [else:] prints "Rate not found".  [None] is falsy and so is a
    float equal to [0.0]. *)
Inductive rate_line : Type :=
| RateShown (rate : float)
| RateNotFound.

Definition rate_report (btc_rate : option float) : rate_line :=
  match btc_rate with
  | Some rate =>
      if Float64.eqb rate Float64.zero then RateNotFound else RateShown rate
  | None => RateNotFound
  end.

(** examples/python_example.py, lines 36-37: what the "Long:" and the
    "Short:" line of an opportunity put side by side. *)
Definition long_line (o : Opportunity) : string * float :=
  (long_exchange o, rate1 o).
Definition short_line (o : Opportunity) : string * float :=
  (short_exchange o, rate2 o).

(** the conversions the loops attempt at the pair [p]: the spread always,
    the two rates when the pair passes the test of line 143 *)
Definition pair_fits (rates : dict Z) (min_spread : float)
           (p : string * string) : bool :=
  let rate1 := rate_of rates (fst p) in
  let rate2 := rate_of rates (snd p) in
  fits (Z.abs (rate1 - rate2)) &&
  (if Float64.geb (spread_of rate1 rate2) min_spread
   then fits rate1 && fits rate2 else true).

(** the snapshot cut down to the exchanges that quote [sym] and to that
    one symbol *)
Definition restricted (funding_rates : rates_table) (sym : string)
  : rates_table :=
  map (fun item => (fst item, [(sym, snd item)])) (quoted funding_rates sym).

(** the float is a zero, a finite number or an infinity of sign [s] *)
Definition has_sign (s : bool) (x : float) : Prop :=
  match x with
  | S754_zero s' | S754_infinity s' | S754_finite s' _ _ => s' = s
  | S754_nan => False
  end.

(** a body that is an object without the key "funding_rates" *)
Definition lacks_funding_rates (r : Http.response) : Prop :=
  exists fields,
    Http.json r = inr (Json.Object fields) /\
    Dict.mem "funding_rates" fields = false.

(** two exchanges whose rates are beyond the doubles and equal *)
Definition huge_table : rates_table :=
  [("ex_a", [("BTC", 2 ^ 2000)]); ("ex_b", [("BTC", 2 ^ 2000)])]%string.

(** a snapshot with a rate of zero *)
Definition zero_rate_table : rates_table :=
  [("ex_a", [("BTC", 0)]); ("ex_b", [("BTC", 25)])]%string.

(** examples/python_example.py, line 17:
    [len(data.exchanges['exchanges'])].  The subscript raises [KeyError]
    on a dict without the key; [len] counts the keys of a dict and the
    items of a list.  [None] stands for the values on which Python raises
    a [TypeError], and for strings, which are not modelled here. *)
Definition exchange_count (data : FundingRatesData) : option (outcome nat) :=
  match exchanges data with
  | Json.Object fields =>
      match Dict.getitem fields "exchanges" with
      | Raises e => Some (Raises e)
      | Returns (Json.Object inner) => Some (Returns (List.length inner))
      | Returns (Json.Array inner) => Some (Returns (List.length inner))
      | Returns _ => None
      end
  | _ => None
  end.

(** examples/python_example.py, line 34: [opportunities[:5]] *)
Definition top_five (opportunities : list Opportunity) : list Opportunity :=
  firstn 5 opportunities.

(** four exchanges, six opportunities *)
Definition four_table : rates_table :=
  [("a", [("BTC", 0)]); ("b", [("BTC", 10)]); ("c", [("BTC", 30)]);
   ("d", [("BTC", 70)])]%string.

(* ------------------------------------------------------------------ *)
(** * Properties *)

(** ** Floats: no NaN out of a conversion or a division by 10000.0 *)

Section FloatNoNaN.

Lemma shr_1_nonneg (mrs : shr_record) :
  0 <= shr_m mrs -> 0 <= shr_m (shr_1 mrs).
Proof.
  destruct mrs as [m r s]; simpl.
  destruct m as [|[p|p|]|p]; simpl; lia.
Qed.

Lemma iter_pos_invariant {A} (P : A -> Prop) (f : A -> A) :
  (forall x, P x -> P (f x)) ->
  forall p x, P x -> P (iter_pos f p x).
Proof.
  intros Hf; induction p as [p IH|p IH|]; intros x Hx; simpl; auto.
Qed.

Lemma shr_nonneg (mrs : shr_record) (e n : Z) :
  0 <= shr_m mrs -> 0 <= shr_m (fst (shr mrs e n)).
Proof.
  intros H; destruct n as [|p|p]; simpl; auto.
  apply (iter_pos_invariant (fun x => 0 <= shr_m x)); auto using shr_1_nonneg.
Qed.

Lemma shr_record_of_loc_m (m : Z) (l : location) :
  shr_m (shr_record_of_loc m l) = m.
Proof. destruct l as [|[ | | ]]; reflexivity. Qed.

Lemma shr_fexp_nonneg (prec emax m e : Z) (l : location) :
  0 <= m -> 0 <= shr_m (fst (shr_fexp prec emax m e l)).
Proof.
  intros H; unfold shr_fexp; apply shr_nonneg.
  now rewrite shr_record_of_loc_m.
Qed.

Lemma round_nearest_even_nonneg (m : Z) (l : location) :
  0 <= m -> 0 <= round_nearest_even m l.
Proof.
  intros H; destruct l as [|[ | | ]]; simpl; try lia.
  destruct (Z.even m); lia.
Qed.

Lemma binary_round_aux_not_nan (prec emax : Z) (sx : bool) (mx ex : Z)
      (lx : location) :
  0 <= mx ->
  Float64.is_nan (binary_round_aux prec emax sx mx ex lx) = false.
Proof.
  intros H; unfold binary_round_aux.
  pose proof (shr_fexp_nonneg prec emax mx ex lx H) as H1.
  destruct (shr_fexp prec emax mx ex lx) as [mrs' e']; simpl in H1.
  pose proof (shr_fexp_nonneg prec emax _ e' loc_Exact
                (round_nearest_even_nonneg _ (loc_of_shr_record mrs') H1)) as H2.
  destruct (shr_fexp prec emax _ e' loc_Exact) as [mrs'' e'']; simpl in H2.
  destruct (shr_m mrs'') as [|m|m]; try reflexivity; try lia.
  now destruct (e'' <=? emax - prec).
Qed.

Lemma of_Z_not_nan (z : Z) : Float64.is_nan (Float64.of_Z z) = false.
Proof.
  unfold Float64.of_Z, binary_normalize, binary_round.
  destruct z as [|m|m]; try reflexivity;
    destruct (shl_align m 0 _) as [mz ez];
    now apply binary_round_aux_not_nan.
Qed.

Lemma SFdiv_core_binary_nonneg (prec emax : Z) (m1 m2 : positive) (e1 e2 : Z) :
  0 <= fst (fst (SFdiv_core_binary prec emax (Zpos m1) e1 (Zpos m2) e2)).
Proof.
  unfold SFdiv_core_binary.
  set (s := _ - _ - _).
  set (m' := match s with Z0 => _ | Zpos _ => _ | Zneg _ => _ end).
  assert (Hm : 0 <= m').
  { subst m'; destruct s; try lia. apply Z.shiftl_nonneg; lia. }
  pose proof (Z.div_pos m' (Zpos m2) Hm ltac:(lia)) as Hq.
  unfold Z.div in Hq.
  destruct (Z.div_eucl m' (Zpos m2)) as [q r]; exact Hq.
Qed.

(** Dividing anything but a NaN by the finite, non-zero [10000.0]
    gives no NaN. *)
Lemma div_ten_thousand_not_nan (x : float) :
  Float64.is_nan x = false ->
  Float64.is_nan (Float64.div x Float64.ten_thousand) = false.
Proof.
  unfold Float64.div, Float64.ten_thousand.
  destruct x as [s|s| |s m e]; intros Hx; try reflexivity; try discriminate.
  unfold SFdiv.
  pose proof (SFdiv_core_binary_nonneg Float64.prec Float64.emax m
                5497558138880000 e (-39)) as H.
  destruct (SFdiv_core_binary _ _ _ _ _ _) as [[mz ez] lz]; simpl in H.
  now apply binary_round_aux_not_nan.
Qed.

End FloatNoNaN.

(** ** Floats: the order *)

Section FloatOrder.

Ltac order_cases :=
  repeat match goal with
         | |- context [Z.compare ?a ?b] =>
             destruct (Z.compare_spec a b); subst
         | |- context [Pos.compare_cont Eq ?a ?b] =>
             change (Pos.compare_cont Eq a b) with (Pos.compare a b);
             destruct (Pos.compare_spec a b); subst
         | H : context [Z.compare ?a ?b] |- _ =>
             destruct (Z.compare_spec a b); subst
         | H : context [Pos.compare_cont Eq ?a ?b] |- _ =>
             change (Pos.compare_cont Eq a b) with (Pos.compare a b) in H;
             destruct (Pos.compare_spec a b); subst
         end;
  simpl in *; try reflexivity; try discriminate; try lia.

Ltac by_cases x y :=
  destruct x as [[|]|[|]| |[|] ? ?], y as [[|]|[|]| |[|] ? ?];
  simpl; try reflexivity; try discriminate; intros; order_cases.

Lemma float_ltb_leb (x y : float) :
  Float64.ltb x y = true -> Float64.leb x y = true.
Proof.
  unfold Float64.ltb, Float64.leb, SFltb, SFleb.
  now destruct (SFcompare x y) as [[ | | ]|].
Qed.

Lemma float_eqb_geb (x y : float) :
  Float64.eqb x y = true -> Float64.geb x y = true.
Proof.
  unfold Float64.eqb, Float64.geb, SFeqb, SFleb, SFcompare.
  by_cases x y.
Qed.

Lemma float_not_ltb_geb (x y : float) :
  Float64.is_nan x = false -> Float64.is_nan y = false ->
  Float64.ltb x y = false -> Float64.geb x y = true.
Proof.
  unfold Float64.ltb, Float64.geb, SFltb, SFleb, SFcompare.
  by_cases x y.
Qed.

Lemma float_eqb_refl (x : float) :
  Float64.is_nan x = false -> Float64.eqb x x = true.
Proof.
  unfold Float64.eqb, SFeqb, SFcompare.
  destruct x as [[|]|[|]| |[|] ? ?]; simpl; try reflexivity;
    try discriminate; intros _;
    rewrite Z.compare_refl;
    change (Pos.compare_cont Eq m m) with (Pos.compare m m);
    now rewrite Pos.compare_refl.
Qed.

Lemma float_leb_trans (x y z : float) :
  Float64.leb x y = true -> Float64.leb y z = true ->
  Float64.leb x z = true.
Proof.
  unfold Float64.leb, SFleb, SFcompare.
  destruct x as [[|]|[|]| |[|] ? ?], y as [[|]|[|]| |[|] ? ?],
        z as [[|]|[|]| |[|] ? ?];
    simpl; try reflexivity; try discriminate; intros; order_cases.
Qed.

(** A key strictly below one that equals [k] does not equal [k]. *)
Lemma float_ltb_eqb_false (x y k : float) :
  Float64.ltb x y = true -> Float64.eqb y k = true ->
  Float64.eqb x k = false.
Proof.
  unfold Float64.ltb, Float64.eqb, SFltb, SFeqb, SFcompare.
  destruct x as [[|]|[|]| |[|] ? ?], y as [[|]|[|]| |[|] ? ?],
        k as [[|]|[|]| |[|] ? ?];
    simpl; try reflexivity; try discriminate; intros; order_cases.
Qed.

End FloatOrder.

(** ** Floats: the integers that convert without overflow *)

Section FloatRange.

Lemma digits2_pos_lt (m : positive) : Zpos m < 2 ^ Zpos (digits2_pos m).
Proof.
induction m as [m IH|m IH|]; simpl digits2_pos;
  rewrite ?Pos2Z.inj_succ, ?Z.pow_succ_r by lia; lia.
Qed.

Lemma digits2_pos_le (m : positive) (k : Z) :
  0 <= k -> Zpos m < 2 ^ k -> Zpos (digits2_pos m) <= k.
Proof.
revert k. induction m as [m IH|m IH|]; intros k Hk Hlt; simpl digits2_pos.
- destruct (Z.eq_dec k 0) as [->|Hne]; [simpl in Hlt; lia|].
  replace k with (Z.succ (k - 1)) in Hlt by lia.
  rewrite Z.pow_succ_r in Hlt by lia.
  specialize (IH (k - 1)). rewrite Pos2Z.inj_succ. lia.
- destruct (Z.eq_dec k 0) as [->|Hne]; [simpl in Hlt; lia|].
  replace k with (Z.succ (k - 1)) in Hlt by lia.
  rewrite Z.pow_succ_r in Hlt by lia.
  specialize (IH (k - 1)). rewrite Pos2Z.inj_succ. lia.
- destruct (Z.eq_dec k 0) as [->|Hne]; [simpl in Hlt; lia|lia].
Qed.

Lemma Zdigits2_lt (m : Z) : 0 <= m -> m < 2 ^ Zdigits2 m.
Proof.
destruct m as [|m|m]; simpl; intros H; try lia. apply digits2_pos_lt.
Qed.

Lemma Zdigits2_le (m k : Z) :
  0 <= m -> 0 <= k -> m < 2 ^ k -> Zdigits2 m <= k.
Proof.
destruct m as [|m|m]; simpl; intros H Hk Hlt; try lia.
now apply digits2_pos_le.
Qed.

Lemma shr_1_halves (mrs : shr_record) :
  0 <= shr_m mrs -> 2 * shr_m (shr_1 mrs) <= shr_m mrs.
Proof.
destruct mrs as [m r s]; simpl.
destruct m as [|[p|p|]|p]; simpl; lia.
Qed.

Lemma iter_shr_1_bound (p : positive) (mrs : shr_record) :
  0 <= shr_m mrs ->
  0 <= shr_m (iter_pos shr_1 p mrs) /\
  2 ^ Zpos p * shr_m (iter_pos shr_1 p mrs) <= shr_m mrs.
Proof.
revert mrs. induction p as [p IH|p IH|]; intros mrs H; simpl iter_pos.
- pose proof (shr_1_nonneg mrs H) as H1.
  pose proof (shr_1_halves mrs H) as H1'.
  destruct (IH _ H1) as [H2 H2'].
  destruct (IH _ H2) as [H3 H3'].
  split; [exact H3|].
  replace (Zpos p~1) with (Zpos p + Zpos p + 1) by lia.
  rewrite !Z.pow_add_r by lia.
  assert (0 < 2 ^ Zpos p) by (apply Z.pow_pos_nonneg; lia).
  nia.
- destruct (IH _ H) as [H2 H2'].
  destruct (IH _ H2) as [H3 H3'].
  split; [exact H3|].
  replace (Zpos p~0) with (Zpos p + Zpos p) by lia.
  rewrite !Z.pow_add_r by lia.
  assert (0 < 2 ^ Zpos p) by (apply Z.pow_pos_nonneg; lia).
  nia.
- split; [now apply shr_1_nonneg|]. now apply shr_1_halves.
Qed.

(** After [shr_fexp] the mantissa has at most 53 bits and the exponent is
    the larger of the old one and the format's. *)
Lemma shr_fexp_bounds (m e : Z) (l : location) :
  0 <= m ->
  0 <= shr_m (fst (shr_fexp 53 1024 m e l)) < 2 ^ 53 /\
  snd (shr_fexp 53 1024 m e l) = Z.max e (fexp 53 1024 (Zdigits2 m + e)).
Proof.
intros Hm. unfold shr_fexp, shr.
pose proof (Zdigits2_lt m Hm) as Hd.
assert (Hd0 : 0 <= Zdigits2 m) by (destruct m; simpl; lia).
set (d := Zdigits2 m) in *.
assert (Hf : d + e - 53 <= fexp 53 1024 (d + e)) by (unfold fexp; lia).
destruct (fexp 53 1024 (d + e) - e) as [|n|n] eqn:En; cbn [fst snd];
  rewrite ?shr_record_of_loc_m.
- split; [|lia]. split; [exact Hm|].
  apply Z.lt_le_trans with (2 ^ d); [exact Hd|].
  apply Z.pow_le_mono_r; lia.
- destruct (iter_shr_1_bound n (shr_record_of_loc m l)) as [H0 H1];
    rewrite ?shr_record_of_loc_m in *; [exact Hm|].
  split; [|lia]. split; [exact H0|].
  destruct (Z_lt_le_dec (shr_m (iter_pos shr_1 n (shr_record_of_loc m l)))
                        (2 ^ 53)) as [Hlt|Hge]; [exact Hlt|exfalso].
  assert (Hp : 2 ^ (Zpos n + 53) < 2 ^ d).
  { rewrite Z.pow_add_r by lia.
    assert (0 < 2 ^ Zpos n) by (apply Z.pow_pos_nonneg; lia).
    nia. }
  apply Z.pow_lt_mono_r_iff in Hp; lia.
- split; [|lia]. split; [exact Hm|].
  apply Z.lt_le_trans with (2 ^ d); [exact Hd|].
  apply Z.pow_le_mono_r; lia.
Qed.

Lemma round_nearest_even_le (m : Z) (l : location) :
  round_nearest_even m l <= m + 1.
Proof.
destruct l as [|[ | | ]]; simpl; try lia. destruct (Z.even m); lia.
Qed.

(** Rounding a mantissa whose value is below [2 ^ 1023] gives no
    infinity. *)
Lemma binary_round_aux_finite (sx : bool) (mx ex : Z) (lx : location) :
  0 <= mx -> Zdigits2 mx + ex <= 1023 -> ex <= 970 ->
  Float64.is_infinity (binary_round_aux 53 1024 sx mx ex lx) = false.
Proof.
intros Hm Hd He. unfold binary_round_aux.
destruct (shr_fexp_bounds mx ex lx Hm) as [[H1 H1'] E1].
destruct (shr_fexp 53 1024 mx ex lx) as [mrs' e']; cbn [fst snd] in H1, H1', E1.
set (m1 := round_nearest_even (shr_m mrs') (loc_of_shr_record mrs')).
assert (Hm1 : 0 <= m1) by now apply round_nearest_even_nonneg.
assert (Hm1' : m1 < 2 ^ 54).
{ pose proof (round_nearest_even_le (shr_m mrs') (loc_of_shr_record mrs')).
  fold m1 in H. change (2 ^ 54) with (2 * 2 ^ 53). lia. }
assert (Hd1 : Zdigits2 m1 <= 54) by (apply Zdigits2_le; lia).
destruct (shr_fexp_bounds m1 e' loc_Exact Hm1) as [_ E2].
destruct (shr_fexp 53 1024 m1 e' loc_Exact) as [mrs'' e'']; cbn [fst snd] in E2.
assert (He'' : e'' <= 971) by (unfold fexp, emin in *; lia).
destruct (shr_m mrs''); try reflexivity.
change (1024 - 53) with 971.
now rewrite (proj2 (Z.leb_le _ _) He'').
Qed.

Lemma iter_xO_pow (m k : positive) :
  Zpos (Pos.iter xO m k) = Zpos m * 2 ^ Zpos k.
Proof.
induction k as [|k IH] using Pos.peano_ind.
- simpl. lia.
- rewrite Pos.iter_succ, Pos2Z.inj_succ, Z.pow_succ_r by lia.
  rewrite Pos2Z.inj_xO, IH. lia.
Qed.

(** Integers below [2 ^ 1023] in absolute value convert to a double. *)
Lemma fits_below_2_1023 (z : Z) : Z.abs z < 2 ^ 1023 -> fits z = true.
Proof.
intros Hz. unfold fits. apply negb_true_iff.
unfold Float64.of_Z, binary_normalize.
assert (H : forall s m, Zpos m < 2 ^ 1023 ->
            Float64.is_infinity (binary_round Float64.prec Float64.emax s m 0)
            = false).
{ intros s m Hm. unfold binary_round, shl_align, Float64.prec, Float64.emax.
  pose proof (digits2_pos_le m 1023 ltac:(lia) Hm) as Hd.
  pose proof (digits2_pos_lt m) as Hd'.
  assert (Hf : fexp 53 1024 (Zpos (digits2_pos m) + 0)
               = Zpos (digits2_pos m) - 53) by (unfold fexp, emin; lia).
  rewrite Hf.
  destruct (Zpos (digits2_pos m) - 53 - 0) as [|k|k] eqn:Ek.
  - apply binary_round_aux_finite; simpl; lia.
  - apply binary_round_aux_finite; simpl; lia.
  - apply binary_round_aux_finite; try lia.
    assert (Zdigits2 (Zpos (Pos.iter xO m k)) <= Zpos (digits2_pos m) + Zpos k).
    { apply Zdigits2_le; try lia.
      rewrite iter_xO_pow, Z.pow_add_r by lia.
      assert (0 < 2 ^ Zpos k) by (apply Z.pow_pos_nonneg; lia).
      nia. }
    lia. }
destruct z as [|m|m]; [reflexivity|apply H|apply H]; simpl in Hz; lia.
Qed.

End FloatRange.

(** ** Lists: one element before another *)

Section Precedes.

Context {A : Type}.

Lemma precedes_nil (x y : A) : ~ precedes [] x y.
Proof. intros ([|? ?] & ? & ? & H); discriminate H. Qed.

Lemma precedes_cons (a : A) (l : list A) (x y : A) :
  precedes (a :: l) x y <-> (a = x /\ In y l) \/ precedes l x y.
Proof.
  split.
  - intros ([|b l1] & l2 & l3 & H); injection H as -> ->.
    + left; split; [reflexivity|]. apply in_or_app; right; now left.
    + right; now exists l1, l2, l3.
  - intros [[-> Hy]|(l1 & l2 & l3 & ->)].
    + apply in_split in Hy as (l2 & l3 & ->). now exists [], l2, l3.
    + now exists (a :: l1), l2, l3.
Qed.

Lemma precedes_In (l : list A) (x y : A) :
  precedes l x y -> In x l /\ In y l.
Proof.
  intros (l1 & l2 & l3 & ->); split.
  - apply in_or_app; right; now left.
  - apply in_or_app; right; right. apply in_or_app; right; now left.
Qed.

Lemma precedes_app (l l' : list A) (x y : A) :
  precedes (l ++ l') x y <->
  precedes l x y \/ precedes l' x y \/ (In x l /\ In y l').
Proof.
  induction l as [|a l IH]; simpl.
  - split; [tauto|]. intros [H|[H|[[] _]]]; [|exact H].
    now apply precedes_nil in H.
  - rewrite !precedes_cons, IH, in_app_iff. intuition.
Qed.

Lemma precedes_rev (l : list A) (x y : A) :
  precedes (rev l) x y <-> precedes l y x.
Proof.
  induction l as [|a l IH]; simpl.
  - split; intros H; now apply precedes_nil in H.
  - rewrite precedes_app, IH, <- in_rev, (precedes_cons a l). simpl.
    split.
    + intros [H|[H|[H [<-|[]]]]]; auto.
      apply precedes_cons in H as [[_ []]|H]. now apply precedes_nil in H.
    + intros [[<- H]|H]; auto.
Qed.

Lemma precedes_filter (f : A -> bool) (l : list A) (x y : A) :
  precedes (filter f l) x y <->
  precedes l x y /\ f x = true /\ f y = true.
Proof.
  induction l as [|a l IH]; simpl.
  - split; [intros H|intros [H _]]; now apply precedes_nil in H.
  - destruct (f a) eqn:Ha; rewrite ?precedes_cons, IH, ?filter_In.
    + split.
      * intros [[<- [Hy Hfy]]|(H & Hx & Hy)]; auto.
      * intros [[[<- Hy]|H] [Hfx Hfy]]; auto.
    + split.
      * intros (H & Hx & Hy); auto.
      * intros [[[<- Hy]|H] [Hfx Hfy]]; [congruence|auto].
Qed.

Lemma StronglySorted_precedes (R : A -> A -> Prop) (l : list A) :
  StronglySorted R l <-> (forall x y, precedes l x y -> R x y).
Proof.
  induction l as [|a l IH].
  - split; [|constructor]. intros _ x y H. now apply precedes_nil in H.
  - split.
    + intros H x y Hxy. apply StronglySorted_inv in H as [Hl Ha].
      apply precedes_cons in Hxy as [[<- Hy]|Hxy].
      * rewrite Forall_forall in Ha. now apply Ha.
      * now apply IH.
    + intros H. constructor.
      * apply IH. intros x y Hxy. apply H, precedes_cons. now right.
      * apply Forall_forall. intros y Hy. apply H, precedes_cons. now left.
Qed.

End Precedes.

Lemma precedes_map {A B} (g : A -> B) (l : list A) (p q : B) :
  precedes (map g l) p q <->
  exists x y, p = g x /\ q = g y /\ precedes l x y.
Proof.
  induction l as [|a l IH]; simpl.
  - split; [intros H|intros (x & y & _ & _ & H)]; now apply precedes_nil in H.
  - rewrite precedes_cons, IH, in_map_iff. split.
    + intros [[<- (y & <- & Hy)]|(x & y & -> & -> & H)].
      * exists a, y. rewrite precedes_cons. auto.
      * exists x, y. rewrite precedes_cons. auto.
    + intros (x & y & -> & -> & H). apply precedes_cons in H as [[<- Hy]|H].
      * left. eauto.
      * right. eauto.
Qed.

(** ** [list.sort(key=..., reverse=True)] *)

Section SortFacts.

Context {A : Type} (key : A -> float).

Local Abbreviation ascending := (ascending_by key).
Local Abbreviation descending := (descending_by key).
Local Abbreviation no_nan := (no_nan_key key).

Lemma insert_Permutation (x : A) (l : list A) :
  Permutation (insert key x l) (x :: l).
Proof.
  induction l as [|y l IH]; simpl; [reflexivity|].
  destruct (Float64.ltb (key y) (key x)); [|reflexivity].
  rewrite IH. apply perm_swap.
Qed.

Lemma sort_ascending_Permutation (l : list A) :
  Permutation (sort_ascending key l) l.
Proof.
  induction l as [|x l IH]; simpl; [reflexivity|].
  fold (sort_ascending key l). now rewrite insert_Permutation, IH.
Qed.

Lemma sort_reverse_Permutation (l : list A) :
  Permutation (sort_reverse key l) l.
Proof.
  unfold sort_reverse.
  now rewrite <- Permutation_rev, sort_ascending_Permutation,
    <- Permutation_rev.
Qed.

Lemma insert_sorted (x : A) (l : list A) :
  no_nan x -> Forall no_nan l ->
  StronglySorted ascending l -> StronglySorted ascending (insert key x l).
Proof.
  intros Hx. induction l as [|y l IH]; intros Hl Hs; simpl.
  - repeat constructor.
  - apply Forall_cons_iff in Hl as [Hy Hl].
    apply StronglySorted_inv in Hs as [Hs Hyl].
    destruct (Float64.ltb (key y) (key x)) eqn:Hlt.
    + constructor; [now apply IH|].
      apply (Permutation_Forall (Permutation_sym (insert_Permutation x l))).
      constructor; [|exact Hyl]. now apply float_ltb_leb.
    + assert (Hxy : ascending x y) by now apply float_not_ltb_geb.
      constructor; [now constructor|].
      constructor; [exact Hxy|].
      eapply Forall_impl; [|exact Hyl].
      intros z Hz. now apply float_leb_trans with (key y).
Qed.

Lemma sort_ascending_sorted (l : list A) :
  Forall no_nan l -> StronglySorted ascending (sort_ascending key l).
Proof.
  induction l as [|x l IH]; intros Hl; simpl; [constructor|].
  apply Forall_cons_iff in Hl as [Hx Hl].
  fold (sort_ascending key l). apply insert_sorted; auto.
  now apply (Permutation_Forall
               (Permutation_sym (sort_ascending_Permutation l))).
Qed.

(** the result is in descending order of the key *)
Lemma sort_reverse_sorted (l : list A) :
  Forall no_nan l -> StronglySorted descending (sort_reverse key l).
Proof.
  intros Hl. apply StronglySorted_precedes. intros x y Hxy.
  unfold sort_reverse in Hxy. apply (proj1 (precedes_rev _ _ _)) in Hxy.
  assert (Hs : StronglySorted ascending (sort_ascending key (rev l))).
  { apply sort_ascending_sorted.
    now apply (Permutation_Forall (Permutation_rev l)). }
  rewrite StronglySorted_precedes in Hs. exact (Hs _ _ Hxy).
Qed.

Section Class.

(** the elements whose key equals [k] *)
Variable k : float.
Local Abbreviation same := (same_key key k).

Lemma filter_insert (x : A) (l : list A) :
  filter same (insert key x l) = filter same (x :: l).
Proof.
  induction l as [|y l IH]; [reflexivity|].
  simpl insert. destruct (Float64.ltb (key y) (key x)) eqn:Hlt;
    [|reflexivity].
  cbn [filter]. rewrite IH. cbn [filter].
  destruct (same x) eqn:Hx, (same y) eqn:Hy; try reflexivity.
  unfold same in Hx, Hy.
  now rewrite (float_ltb_eqb_false _ _ _ Hlt Hx) in Hy.
Qed.

Lemma filter_sort_ascending (l : list A) :
  filter same (sort_ascending key l) = filter same l.
Proof.
  induction l as [|x l IH]; [reflexivity|].
  simpl sort_ascending. fold (sort_ascending key l).
  rewrite filter_insert. simpl. now rewrite IH.
Qed.

(** sorting leaves every class of equal keys in its original order *)
Lemma filter_sort_reverse (l : list A) :
  filter same (sort_reverse key l) = filter same l.
Proof.
  unfold sort_reverse.
  now rewrite filter_rev, filter_sort_ascending, <- filter_rev,
    rev_involutive.
Qed.

End Class.

(** Stability: elements with equal keys come out in the order they
    went in. *)
Lemma sort_reverse_stable (l : list A) (x y : A) :
  Forall no_nan l ->
  precedes (sort_reverse key l) x y ->
  Float64.eqb (key x) (key y) = true ->
  precedes l x y.
Proof.
  intros Hl Hxy Heq.
  assert (Hy : no_nan y).
  { rewrite Forall_forall in Hl. apply Hl.
    apply (Permutation_in _ (sort_reverse_Permutation l)).
    now apply precedes_In in Hxy. }
  assert (H : precedes (filter (same_key key (key y)) (sort_reverse key l))
                       x y).
  { apply precedes_filter. repeat split; auto.
    unfold same_key. now apply float_eqb_refl. }
  rewrite filter_sort_reverse in H.
  now apply precedes_filter in H.
Qed.

End SortFacts.

(** ** Dictionaries *)

Section DictFacts.

Context {V : Type}.
Implicit Types (d : dict V) (k : string) (v : V).

Lemma inb_In k (l : list string) : Dict.inb k l = true <-> In k l.
Proof.
  induction l as [|k' l IH]; simpl; [intuition discriminate|].
  rewrite orb_true_iff, IH, String.eqb_eq. intuition.
Qed.

Lemma nodupb_NoDup (l : list string) : Dict.nodupb l = true <-> NoDup l.
Proof.
  induction l as [|k l IH]; simpl; [intuition constructor|].
  rewrite andb_true_iff, negb_true_iff, IH, NoDup_cons_iff,
    <- not_true_iff_false, inb_In. tauto.
Qed.

Lemma wf_NoDup d : Dict.wf d = true <-> NoDup (Dict.keys d).
Proof. apply nodupb_NoDup. Qed.

Lemma get_None d k : Dict.get d k = None <-> ~ In k (Dict.keys d).
Proof.
  induction d as [|[k' v'] d IH]; simpl; [tauto|].
  destruct (String.eqb_spec k k') as [->|Hne].
  - split; [discriminate|]. intros H; exfalso; auto.
  - rewrite IH. intuition congruence.
Qed.

Lemma get_Some_In d k v : Dict.get d k = Some v -> In k (Dict.keys d).
Proof.
  intros H. destruct (in_dec string_dec k (Dict.keys d)) as [Hin|Hin]; auto.
  apply get_None in Hin. congruence.
Qed.

Lemma In_get d k : In k (Dict.keys d) -> exists v, Dict.get d k = Some v.
Proof.
  intros H. destruct (Dict.get d k) as [v|] eqn:E; eauto.
  now apply get_None in E.
Qed.

Lemma get_app d d' k :
  Dict.get (d ++ d') k =
  match Dict.get d k with Some v => Some v | None => Dict.get d' k end.
Proof.
  induction d as [|[k' v'] d IH]; simpl; [reflexivity|].
  now destruct (String.eqb k k').
Qed.

Lemma set_fresh d k v :
  ~ In k (Dict.keys d) -> Dict.set d k v = d ++ [(k, v)].
Proof.
  induction d as [|[k' v'] d IH]; simpl; intros H; [reflexivity|].
  destruct (String.eqb_spec k k') as [->|Hne]; [exfalso; auto|].
  rewrite IH; auto.
Qed.

Lemma keys_set d k v :
  Dict.keys (Dict.set d k v) =
  if Dict.mem k d then Dict.keys d else Dict.keys d ++ [k].
Proof.
  unfold Dict.mem.
  induction d as [|[k' v'] d IH]; simpl; [reflexivity|].
  destruct (String.eqb_spec k k') as [->|Hne]; simpl; [reflexivity|].
  rewrite IH. now destruct (Dict.get d k).
Qed.

Lemma set_NoDup d k v :
  NoDup (Dict.keys d) -> NoDup (Dict.keys (Dict.set d k v)).
Proof.
  intros H. rewrite keys_set. unfold Dict.mem.
  destruct (Dict.get d k) eqn:E; [exact H|].
  apply get_None in E. apply NoDup_app; auto.
  - repeat constructor. simpl; tauto.
  - intros x Hx [<-|[]]. contradiction.
Qed.

Lemma set_length d k v :
  (List.length (Dict.set d k v) <= S (List.length d))%nat.
Proof.
  induction d as [|[k' v'] d IH]; simpl; [lia|].
  destruct (String.eqb k k'); simpl; lia.
Qed.

End DictFacts.

(** ** Collecting the rates of a symbol (lines 127-130) *)

Section CollectFacts.

Variable sym : string.

Lemma collect_rates_NoDup (items : list (string * dict Z)) (rates : dict Z) :
  NoDup (Dict.keys rates) ->
  NoDup (Dict.keys (collect_rates items sym rates)).
Proof.
  revert rates. induction items as [|[e syms] items IH]; intros rates H;
    simpl; [exact H|].
  destruct (Dict.get syms sym); auto using set_NoDup.
Qed.

Lemma collect_rates_length (items : list (string * dict Z)) (rates : dict Z) :
  (List.length (collect_rates items sym rates)
   <= List.length rates + List.length (quoting items sym))%nat.
Proof.
  revert rates. induction items as [|[e syms] items IH]; intros rates;
    simpl; [lia|].
  unfold Dict.mem. destruct (Dict.get syms sym) as [r|]; simpl; [|apply IH].
  specialize (IH (Dict.set rates e r)).
  pose proof (set_length rates e r) as Hs.
  unfold quoting, Dict.mem in *. lia.
Qed.

Lemma collect_rates_quoted (items : list (string * dict Z)) (rates : dict Z) :
  NoDup (Dict.keys rates ++ Dict.keys items) ->
  collect_rates items sym rates = rates ++ quoted items sym.
Proof.
  revert rates. induction items as [|[e syms] items IH]; intros rates H;
    simpl; [now rewrite app_nil_r|].
  simpl in H.
  destruct (Dict.get syms sym) as [r|]; simpl.
  - rewrite IH.
    + rewrite set_fresh; [now rewrite <- app_assoc|].
      apply NoDup_remove_2 in H. rewrite in_app_iff in H. tauto.
    + rewrite set_fresh.
      * unfold Dict.keys in *. rewrite map_app, <- app_assoc. exact H.
      * apply NoDup_remove_2 in H. rewrite in_app_iff in H. tauto.
  - apply IH. now apply NoDup_remove_1 in H.
Qed.

Lemma keys_quoted (table : rates_table) :
  Dict.keys (quoted table sym) = qualifying table sym.
Proof.
  unfold qualifying, quoting, Dict.mem.
  induction table as [|[e syms] table IH]; simpl; [reflexivity|].
  destruct (Dict.get syms sym); simpl; now rewrite <- IH.
Qed.

Lemma qualifying_incl (table : rates_table) (e : string) :
  In e (qualifying table sym) -> In e (Dict.keys table).
Proof.
  unfold qualifying, quoting. rewrite in_map_iff.
  intros (item & <- & H). apply filter_In in H as [H _].
  now apply in_map.
Qed.

Lemma get_quoted (table : rates_table) (e : string) :
  NoDup (Dict.keys table) ->
  Dict.get (quoted table sym) e = raw_rate table e sym.
Proof.
  unfold raw_rate.
  induction table as [|[e' syms] table IH]; simpl; intros H; [reflexivity|].
  apply NoDup_cons_iff in H as [Hnotin H]. specialize (IH H).
  rewrite get_app.
  destruct (String.eqb_spec e e') as [->|Hne].
  - destruct (Dict.get syms sym) as [r|] eqn:E; simpl.
    + now rewrite String.eqb_refl.
    + destruct (Dict.get (quoted table sym) e') eqn:E'; [|reflexivity].
      apply get_Some_In in E'. rewrite keys_quoted in E'.
      now apply qualifying_incl in E'.
  - destruct (Dict.get syms sym) as [r|]; simpl; [|exact IH].
    now rewrite (proj2 (String.eqb_neq e e') Hne).
Qed.

(** On a dictionary, lines 127-130 collect exactly the rates of the
    qualifying exchanges, in the order of the snapshot. *)
Lemma collect_rates_wf (table : rates_table) :
  Dict.wf table = true ->
  collect_rates (Dict.items table) sym Dict.empty = quoted table sym.
Proof.
  intros H. apply wf_NoDup in H.
  now rewrite collect_rates_quoted.
Qed.

End CollectFacts.

(** ** The pairs the loops visit (lines 137-138) *)

Section PairFacts.

Context {A : Type}.
Implicit Types (l : list A) (a b c d : A).

Lemma in_all_pairs l a b : In (a, b) (all_pairs l) <-> precedes l a b.
Proof.
  induction l as [|x l IH]; simpl.
  - split; [tauto|apply precedes_nil].
  - rewrite in_app_iff, in_map_iff, precedes_cons, IH. split.
    + intros [(y & [= <- <-] & Hy)|H]; auto.
    + intros [[<- Hb]|H]; eauto.
Qed.

Lemma precedes_NoDup_neq l a b : NoDup l -> precedes l a b -> a <> b.
Proof.
  intros H (l1 & l2 & l3 & ->) <-.
  apply NoDup_remove_2 in H. apply H.
  rewrite !in_app_iff. simpl. auto.
Qed.

Lemma precedes_NoDup_asym l a b :
  NoDup l -> precedes l a b -> ~ precedes l b a.
Proof.
  induction l as [|x l IH]; intros Hl Hab Hba.
  - now apply precedes_nil in Hab.
  - apply NoDup_cons_iff in Hl as [Hx Hl].
    apply precedes_cons in Hab as [[<- Hb]|Hab];
      apply precedes_cons in Hba as [[<- Ha]|Hba]; auto.
    + now apply precedes_In in Hba.
    + now apply precedes_In in Hab.
    + now apply (IH Hl Hab).
Qed.

Lemma precedes_total l a b :
  In a l -> In b l -> a <> b -> precedes l a b \/ precedes l b a.
Proof.
  induction l as [|x l IH]; simpl; [tauto|].
  rewrite !precedes_cons.
  intros [->|Ha] [->|Hb] Hne; auto; try congruence.
  destruct (IH Ha Hb Hne); auto.
Qed.

Lemma NoDup_map_injective {B} (f : A -> B) l :
  (forall x y, f x = f y -> x = y) -> NoDup l -> NoDup (map f l).
Proof.
  intros Hf. induction 1 as [|x l Hx Hl IH]; simpl; constructor; auto.
  rewrite in_map_iff. intros (y & Hy & Hin). apply Hf in Hy. now subst.
Qed.

Lemma all_pairs_NoDup l : NoDup l -> NoDup (all_pairs l).
Proof.
  induction 1 as [|x l Hx Hl IH]; simpl; [constructor|].
  apply NoDup_app; auto.
  - apply NoDup_map_injective; auto. now intros y z [= ->].
  - intros [a b] Hin Hin'. apply in_map_iff in Hin as (y & [= <- <-] & Hy).
    apply in_all_pairs, precedes_In in Hin'. tauto.
Qed.

(** The order of the visit: by position of the first exchange, then by
    position of the second. *)
Lemma precedes_all_pairs l a b c d :
  precedes (all_pairs l) (a, b) (c, d) ->
  precedes l a c \/ (a = c /\ precedes l b d).
Proof.
  induction l as [|x l IH]; simpl; intros H.
  - now apply precedes_nil in H.
  - rewrite !precedes_cons.
    apply precedes_app in H as [H|[H|[H H']]].
    + apply precedes_map in H as (y & z & [= -> ->] & [= -> ->] & H).
      right; split; auto.
    + destruct (IH H) as [H'|[-> H']]; auto.
    + apply in_map_iff in H as (y & [= <- <-] & Hy).
      apply in_all_pairs, precedes_In in H'. left; left. tauto.
Qed.

Lemma all_pairs_short l : (List.length l < 2)%nat -> all_pairs l = [].
Proof. destruct l as [|x [|y l]]; simpl; try reflexivity; lia. Qed.

End PairFacts.

(** ** The two loops (lines 137-153) *)

Section LoopFacts.

Variables (rates : dict Z) (sym : string) (min_spread : float).

Lemma int_to_float_Returns (z : Z) (f : float) :
  int_to_float z = Returns f -> f = Float64.of_Z z /\ fits z = true.
Proof.
  unfold int_to_float, fits.
  destruct (Float64.is_infinity (Float64.of_Z z)); [discriminate|].
  now intros [= <-].
Qed.

Lemma div_10000_Returns (z : Z) (f : float) :
  div_10000 z = Returns f -> f = normalized z /\ fits z = true.
Proof.
  unfold div_10000, normalized.
  destruct (int_to_float z) as [x|e] eqn:E; simpl; [|discriminate].
  apply int_to_float_Returns in E as [-> ?]. now intros [= <-].
Qed.

Lemma div_10000_fits (z : Z) :
  fits z = true -> div_10000 z = Returns (normalized z).
Proof.
  unfold div_10000, int_to_float, normalized, fits.
  now destruct (Float64.is_infinity (Float64.of_Z z)).
Qed.

Lemma div_10000_overflow (z : Z) :
  fits z = false -> div_10000 z = Raises OverflowError.
Proof.
  unfold div_10000, int_to_float, fits.
  now destruct (Float64.is_infinity (Float64.of_Z z)).
Qed.

Lemma getitem_Returns {V} (d : dict V) (k : string) (v : V) :
  Dict.getitem d k = Returns v -> Dict.get d k = Some v.
Proof.
  unfold Dict.getitem. destruct (Dict.get d k); [|discriminate].
  now intros [= <-].
Qed.

Local Abbreviation visit := (visit rates sym min_spread).

Lemma inner_loop_Returns (exchange1 : string) (rest : list string)
      (opportunities result : list Opportunity) :
  inner_loop rates sym min_spread exchange1 rest opportunities
  = Returns result ->
  result = opportunities ++ visit (map (pair exchange1) rest).
Proof.
  revert opportunities.
  induction rest as [|exchange2 rest IH]; intros opportunities; simpl.
  - intros [= <-]. now rewrite app_nil_r.
  - destruct (Dict.getitem rates exchange1) as [r1|] eqn:E1; simpl;
      [|discriminate].
    destruct (Dict.getitem rates exchange2) as [r2|] eqn:E2; simpl;
      [|discriminate].
    apply getitem_Returns in E1, E2.
    destruct (div_10000 (Z.abs (r1 - r2))) as [s|] eqn:Es; simpl;
      [|discriminate].
    apply div_10000_Returns in Es as [-> _].
    unfold visit, keeps at 1, opportunity_of at 1, rate_of; simpl.
    rewrite E1, E2. fold (spread_of r1 r2).
    destruct (Float64.geb (spread_of r1 r2) min_spread).
    + destruct (div_10000 r1) as [n1|] eqn:En1; simpl; [|discriminate].
      destruct (div_10000 r2) as [n2|] eqn:En2; simpl; [|discriminate].
      apply div_10000_Returns in En1 as [-> _], En2 as [-> _].
      intros H. apply IH in H. now rewrite H, <- app_assoc.
    + apply IH.
Qed.

Lemma outer_loop_Returns (exchanges : list string)
      (opportunities result : list Opportunity) :
  outer_loop rates sym min_spread exchanges opportunities = Returns result ->
  result = opportunities ++ visit (all_pairs exchanges).
Proof.
  revert opportunities.
  induction exchanges as [|exchange1 rest IH]; intros opportunities; simpl.
  - intros [= <-]. now rewrite app_nil_r.
  - destruct (inner_loop _ _ _ _ _ _) as [opportunities'|] eqn:E; simpl;
      [|discriminate].
    apply inner_loop_Returns in E as ->.
    intros H. apply IH in H.
    unfold visit in *. now rewrite H, map_app, filter_app, <- app_assoc.
Qed.

End LoopFacts.

(** ** [find_arbitrage_opportunities] as a whole *)

Section FindFacts.

Variables (table : rates_table) (sym : string) (min_spread : float).
Hypothesis table_wf : Dict.wf table = true.

Lemma find_Returns (opps : list Opportunity) :
  find_arbitrage_opportunities table sym min_spread = Returns opps ->
  opps = sort_reverse spread (visited table sym min_spread).
Proof.
  unfold find_arbitrage_opportunities, visited.
  rewrite collect_rates_wf by exact table_wf.
  rewrite <- keys_quoted.
  destruct (List.length (quoted table sym) <? 2)%nat eqn:E.
  - intros [= <-]. apply Nat.ltb_lt in E.
    rewrite all_pairs_short; [reflexivity|].
    unfold Dict.keys. now rewrite length_map.
  - destruct (outer_loop _ _ _ _ _) as [l|] eqn:El; simpl; [|discriminate].
    apply outer_loop_Returns in El. simpl in El. subst l.
    now intros [= <-].
Qed.

Lemma qualifying_raw_rate (a : string) :
  In a (qualifying table sym) <-> exists r, raw_rate table a sym = Some r.
Proof.
  rewrite <- keys_quoted.
  split.
  - intros H. apply In_get in H as [r H]. exists r.
    now rewrite <- get_quoted by now apply wf_NoDup.
  - intros [r H]. rewrite <- get_quoted in H by now apply wf_NoDup.
    now apply get_Some_In in H.
Qed.

Lemma rate_of_quoted (a : string) (r : Z) :
  raw_rate table a sym = Some r -> rate_of (quoted table sym) a = r.
Proof.
  intros H. unfold rate_of.
  now rewrite get_quoted, H by now apply wf_NoDup.
Qed.

Lemma qualifying_NoDup : NoDup (qualifying table sym).
Proof.
  rewrite <- keys_quoted, <- collect_rates_wf by exact table_wf.
  apply collect_rates_NoDup. constructor.
Qed.

(** what the loops append, pair by pair *)
Lemma in_visited (o : Opportunity) :
  In o (visited table sym min_spread) <->
  exists a b ra rb,
    precedes (qualifying table sym) a b /\
    raw_rate table a sym = Some ra /\
    raw_rate table b sym = Some rb /\
    Float64.geb (spread_of ra rb) min_spread = true /\
    o = opportunity sym a ra b rb.
Proof.
  unfold visited, visit. rewrite filter_In, in_map_iff. split.
  - intros [([a b] & <- & Hin) Hk].
    apply in_all_pairs in Hin.
    destruct (precedes_In _ _ _ Hin) as [Ha Hb].
    apply qualifying_raw_rate in Ha as [ra Ha], Hb as [rb Hb].
    exists a, b, ra, rb.
    unfold opportunity_of in *; simpl in *.
    rewrite (rate_of_quoted _ _ Ha), (rate_of_quoted _ _ Hb) in *.
    auto.
  - intros (a & b & ra & rb & Hin & Ha & Hb & Hk & ->).
    split; [|exact Hk].
    exists (a, b). split; [|now apply in_all_pairs].
    unfold opportunity_of; simpl.
    now rewrite (rate_of_quoted _ _ Ha), (rate_of_quoted _ _ Hb).
Qed.

Lemma visited_no_nan :
  Forall (fun o => Float64.is_nan (spread o) = false)
         (visited table sym min_spread).
Proof.
  apply Forall_forall. intros o Ho.
  apply in_visited in Ho as (a & b & ra & rb & _ & _ & _ & _ & ->).
  simpl. apply div_ten_thousand_not_nan, of_Z_not_nan.
Qed.

Lemma opportunity_injective (a b c d : string) (ra rb rc rd : Z) :
  opportunity sym a ra b rb = opportunity sym c rc d rd -> a = c /\ b = d.
Proof. now intros [= -> _ -> _]. Qed.

Lemma visited_NoDup : NoDup (visited table sym min_spread).
Proof.
  unfold visited, visit. apply NoDup_filter, NoDup_map_injective.
  - intros [a b] [c d] H. unfold opportunity_of in H; simpl in H.
    apply opportunity_injective in H as [-> ->]. reflexivity.
  - apply all_pairs_NoDup, qualifying_NoDup.
Qed.

End FindFacts.

(** ** When the loops run to the end *)

Section Totality.

Variables (rates : dict Z) (sym : string) (min_spread : float).
Hypothesis rates_fit : all_fit rates = true.

Lemma get_In_item {V} (d : dict V) (k : string) (v : V) :
  Dict.get d k = Some v -> In (k, v) d.
Proof.
  induction d as [|[k' v'] d IH]; simpl; [discriminate|].
  destruct (String.eqb_spec k k') as [->|_]; [intros [= ->]|]; auto.
Qed.

Lemma all_fit_rate (a : string) (ra : Z) :
  Dict.get rates a = Some ra -> fits ra = true.
Proof.
  intros Ha. apply get_In_item in Ha.
  unfold all_fit in rates_fit. rewrite forallb_forall in rates_fit.
  apply rates_fit in Ha. now apply andb_true_iff in Ha as [Ha _].
Qed.

Lemma all_fit_difference (a b : string) (ra rb : Z) :
  Dict.get rates a = Some ra -> Dict.get rates b = Some rb ->
  fits (Z.abs (ra - rb)) = true.
Proof.
  intros Ha Hb. apply get_In_item in Ha, Hb.
  unfold all_fit in rates_fit. rewrite forallb_forall in rates_fit.
  apply rates_fit in Ha. apply andb_true_iff in Ha as [_ Ha].
  rewrite forallb_forall in Ha. now apply Ha in Hb.
Qed.

Lemma inner_loop_total (exchange1 : string) (rest : list string)
      (opportunities : list Opportunity) :
  incl (exchange1 :: rest) (Dict.keys rates) ->
  exists result,
    inner_loop rates sym min_spread exchange1 rest opportunities
    = Returns result.
Proof.
  revert opportunities.
  induction rest as [|exchange2 rest IH]; intros opportunities Hin; simpl.
  - eauto.
  - destruct (In_get rates exchange1) as [r1 E1]; [apply Hin; simpl; auto|].
    destruct (In_get rates exchange2) as [r2 E2]; [apply Hin; simpl; auto|].
    unfold Dict.getitem. rewrite E1, E2. simpl.
    rewrite (div_10000_fits _ (all_fit_difference _ _ _ _ E1 E2)). simpl.
    rewrite (div_10000_fits _ (all_fit_rate _ _ E1)),
      (div_10000_fits _ (all_fit_rate _ _ E2)). simpl.
    destruct (Float64.geb _ _); apply IH;
      intros e [<-|He]; apply Hin; simpl; auto.
Qed.

Lemma outer_loop_total (exchanges : list string)
      (opportunities : list Opportunity) :
  incl exchanges (Dict.keys rates) ->
  exists result,
    outer_loop rates sym min_spread exchanges opportunities = Returns result.
Proof.
  revert opportunities.
  induction exchanges as [|exchange1 rest IH]; intros opportunities Hin;
    simpl.
  - eauto.
  - destruct (inner_loop_total exchange1 rest opportunities Hin) as [l ->].
    simpl. apply IH. intros e He. apply Hin. simpl; auto.
Qed.

End Totality.

(** No conversion out of range, no exception: the call returns. *)
Lemma find_arbitrage_opportunities_total (table : rates_table) (sym : string)
      (min_spread : float) :
  Dict.wf table = true ->
  all_fit (quoted table sym) = true ->
  exists opps,
    find_arbitrage_opportunities table sym min_spread = Returns opps.
Proof.
  intros Hwf Hfit. unfold find_arbitrage_opportunities.
  rewrite collect_rates_wf by exact Hwf.
  destruct (List.length _ <? 2)%nat; [eauto|].
  destruct (outer_loop_total (quoted table sym) sym min_spread Hfit
              (Dict.keys (quoted table sym)) []) as [l ->].
  - apply incl_refl.
  - simpl. eauto.
Qed.

Lemma In_item_get {V} (d : dict V) (k : string) (v : V) :
  NoDup (Dict.keys d) -> In (k, v) d -> Dict.get d k = Some v.
Proof.
induction d as [|[k' v'] d IH]; simpl; intros Hnd Hin; [contradiction|].
apply NoDup_cons_iff in Hnd as [Hk' Hnd].
destruct Hin as [[= -> ->]|Hin]; [now rewrite String.eqb_refl|].
destruct (String.eqb_spec k k') as [->|_]; [|now apply IH].
exfalso. apply Hk'. now apply (in_map fst) in Hin.
Qed.

(** With the rates in range no conversion overflows: the call returns. *)
Lemma find_arbitrage_opportunities_returns (table : rates_table)
      (sym : string) (min_spread : float) :
  Dict.wf table = true ->
  rates_in_range table sym ->
  exists opps,
    find_arbitrage_opportunities table sym min_spread = Returns opps.
Proof.
intros Hwf Hb. apply find_arbitrage_opportunities_total; [exact Hwf|].
assert (Hnd : NoDup (Dict.keys (quoted table sym))).
{ rewrite keys_quoted. now apply qualifying_NoDup. }
assert (Hr : forall a ra, In (a, ra) (quoted table sym) ->
                          Z.abs ra < 2 ^ 1022).
{ intros a ra Hin. apply (Hb a).
  rewrite <- get_quoted by now apply wf_NoDup.
  now apply In_item_get. }
assert (E : 2 ^ 1023 = 2 * 2 ^ 1022) by reflexivity.
unfold all_fit. apply forallb_forall. intros [a ra] Ha. simpl.
pose proof (Hr a ra Ha) as Hra.
apply andb_true_iff. split.
- apply fits_below_2_1023. lia.
- apply forallb_forall. intros [b rb] Hb'. simpl.
  pose proof (Hr b rb Hb') as Hrb.
  apply fits_below_2_1023. lia.
Qed.

(* ------------------------------------------------------------------ *)
(** * The claims *)

(** ** The example of the specification *)

Example example_find :
  find_arbitrage_opportunities example_table "BTC" one_hundredth
  = Returns example_result.
Proof. vm_compute. reflexivity. Qed.

Example example_get_rate :
  get_rate example_table "ex_a" "BTC"
  = Returns (Some (S754_finite false 5764607523034235 (-59))).
Proof. vm_compute. reflexivity. Qed.

(** ** C1 *)

(** C1.  A raw rate [r] stored in the snapshot reaches the caller as
    [r / 10000.0] and nothing else: [get_rate] returns the double
    [normalized r] (or raises Python's [OverflowError] when [r] is beyond
    the doubles), and an opportunity that names the exchange carries
    [normalized r] as its [rate1], respectively [rate2]. *)
Theorem normalized_rate_exact (table : rates_table) (exchange sym : string)
        (r : Z) :
  Dict.wf table = true ->
  raw_rate table exchange sym = Some r ->
  get_rate table exchange sym
  = (if fits r then Returns (Some (normalized r)) else Raises OverflowError)
  /\ (Z.abs r < 2 ^ 1023 ->
      get_rate table exchange sym = Returns (Some (normalized r)))
  /\ forall min_spread opps,
      find_arbitrage_opportunities table sym min_spread = Returns opps ->
      forall o, In o opps ->
                (exchange1 o = exchange -> rate1 o = normalized r) /\
                (exchange2 o = exchange -> rate2 o = normalized r).
Proof.
  intros Hwf Hr.
  assert (Hg : get_rate table exchange sym
               = (if fits r then Returns (Some (normalized r))
                  else Raises OverflowError)).
  { unfold raw_rate in Hr. unfold get_rate.
    destruct (Dict.get table exchange) as [syms|]; [|discriminate].
    rewrite Hr. destruct (fits r) eqn:E.
    - now rewrite div_10000_fits.
    - now rewrite div_10000_overflow. }
  split; [exact Hg|split].
  - intros Hb. now rewrite Hg, (fits_below_2_1023 r Hb).
  - intros min_spread opps Hfind o Ho.
    apply (find_Returns _ _ _ Hwf) in Hfind. subst opps.
    apply (Permutation_in _ (sort_reverse_Permutation spread _)) in Ho.
    apply (in_visited _ _ _ Hwf) in Ho
      as (a & b & ra & rb & _ & Ha & Hb & _ & ->).
    simpl. split; intros <-; congruence.
Qed.

Lemma normalized_rate_exact_witness :
  get_rate example_table "ex_a" "BTC"
  = (if fits 100 then Returns (Some (normalized 100))
     else Raises OverflowError)
  /\ (Z.abs 100 < 2 ^ 1023 ->
      get_rate example_table "ex_a" "BTC" = Returns (Some (normalized 100)))
  /\ forall min_spread opps,
      find_arbitrage_opportunities example_table "BTC" min_spread
      = Returns opps ->
      forall o, In o opps ->
                (exchange1 o = "ex_a"%string -> rate1 o = normalized 100) /\
                (exchange2 o = "ex_a"%string -> rate2 o = normalized 100).
Proof.
  apply (normalized_rate_exact example_table "ex_a" "BTC" 100); reflexivity.
Defined.

(** ** C2 *)

(** C2.  The call returns whenever the rates are in range.  The loops
    visit every unordered pair of qualifying exchanges exactly once and
    never an exchange with itself; the returned list is a rearrangement of
    the visited pairs that pass the spread test, so no opportunity pairs an
    exchange with itself and no unordered pair is returned twice. *)
Theorem pairs_once (table : rates_table) (sym : string) (min_spread : float) :
  Dict.wf table = true ->
  let pairs := all_pairs (qualifying table sym) in
  (rates_in_range table sym ->
   exists opps,
     find_arbitrage_opportunities table sym min_spread = Returns opps) /\
  (NoDup pairs /\
   (forall a, ~ In (a, a) pairs) /\
   (forall a b, In a (qualifying table sym) -> In b (qualifying table sym) ->
                a <> b ->
                (In (a, b) pairs \/ In (b, a) pairs) /\
                ~ (In (a, b) pairs /\ In (b, a) pairs))) /\
  forall opps,
    find_arbitrage_opportunities table sym min_spread = Returns opps ->
    Permutation opps (visited table sym min_spread) /\
    (forall o, In o opps -> exchange1 o <> exchange2 o) /\
    (forall o o' a b,
        precedes opps o o' -> compares o a b -> ~ compares o' a b).
Proof.
  intros Hwf pairs.
  pose proof (qualifying_NoDup table sym Hwf) as Hnd.
  split; [now apply find_arbitrage_opportunities_returns|].
  split.
  { split; [now apply all_pairs_NoDup|split].
    - intros a Ha. apply in_all_pairs in Ha.
      now apply (precedes_NoDup_neq _ _ _ Hnd Ha).
    - intros a b Ha Hb Hne. unfold pairs. rewrite !in_all_pairs. split.
      + now apply precedes_total.
      + intros [H H']. now apply (precedes_NoDup_asym _ _ _ Hnd H). }
  intros opps Hfind.
  apply (find_Returns _ _ _ Hwf) in Hfind.
  assert (Hperm : Permutation opps (visited table sym min_spread))
    by (subst opps; apply sort_reverse_Permutation).
  split; [exact Hperm|split].
  - intros o Ho. apply (Permutation_in _ Hperm) in Ho.
    apply (in_visited _ _ _ Hwf) in Ho
      as (a & b & ra & rb & Hab & _ & _ & _ & ->).
    simpl. now apply (precedes_NoDup_neq _ _ _ Hnd Hab).
  - intros o o' a b Hoo' Ho Ho'.
    assert (Hne : o <> o').
    { apply (precedes_NoDup_neq opps); [|exact Hoo'].
      apply (Permutation_NoDup (Permutation_sym Hperm)).
      now apply visited_NoDup. }
    destruct (precedes_In _ _ _ Hoo') as [Hin Hin'].
    apply (Permutation_in _ Hperm) in Hin, Hin'.
    apply (in_visited _ _ _ Hwf) in Hin
      as (a1 & b1 & ra1 & rb1 & H1 & Ha1 & Hb1 & _ & ->).
    apply (in_visited _ _ _ Hwf) in Hin'
      as (a2 & b2 & ra2 & rb2 & H2 & Ha2 & Hb2 & _ & ->).
    unfold compares in Ho, Ho'; simpl in Ho, Ho'.
    destruct Ho as [[-> ->]|[-> ->]], Ho' as [[-> ->]|[-> ->]].
    + apply Hne. congruence.
    + now apply (precedes_NoDup_asym _ _ _ Hnd H1).
    + now apply (precedes_NoDup_asym _ _ _ Hnd H1).
    + apply Hne. congruence.
Qed.

Lemma pairs_once_witness :
  Permutation example_result (visited example_table "BTC" one_hundredth) /\
  (forall o, In o example_result -> exchange1 o <> exchange2 o) /\
  (forall o o' a b,
      precedes example_result o o' -> compares o a b -> ~ compares o' a b).
Proof.
  apply (proj2 (proj2 (pairs_once example_table "BTC" one_hundredth
                         eq_refl))
               example_result).
  reflexivity.
Defined.

(** ** C3 *)

Lemma spread_of_sym (ra rb : Z) : spread_of ra rb = spread_of rb ra.
Proof. unfold spread_of. f_equal. lia. Qed.

(** C3.  The call returns whenever the rates are in range, and two
    distinct qualifying exchanges with raw rates [ra] and [rb] are compared
    in the returned list if and only if
    [|ra - rb| / 10000.0 >= min_spread]; in particular they are when the
    spread equals [min_spread]. *)
Theorem spread_filter (table : rates_table) (sym : string)
        (min_spread : float) (a b : string) (ra rb : Z) :
  Dict.wf table = true ->
  a <> b ->
  raw_rate table a sym = Some ra ->
  raw_rate table b sym = Some rb ->
  (rates_in_range table sym ->
   exists opps,
     find_arbitrage_opportunities table sym min_spread = Returns opps) /\
  forall opps,
    find_arbitrage_opportunities table sym min_spread = Returns opps ->
    ((exists o, In o opps /\ compares o a b) <->
     Float64.geb (spread_of ra rb) min_spread = true) /\
    (Float64.eqb (spread_of ra rb) min_spread = true ->
     exists o, In o opps /\ compares o a b).
Proof.
  intros Hwf Hne Ha Hb.
  split; [now apply find_arbitrage_opportunities_returns|].
  intros opps Hfind.
  apply (find_Returns _ _ _ Hwf) in Hfind.
  assert (Hin : forall o, In o opps <-> In o (visited table sym min_spread)).
  { intros o. subst opps. split; apply Permutation_in;
      [|apply Permutation_sym]; apply sort_reverse_Permutation. }
  assert (Hiff : (exists o, In o opps /\ compares o a b) <->
                 Float64.geb (spread_of ra rb) min_spread = true).
  { split.
    - intros (o & Ho & Hc). apply Hin in Ho.
      apply (in_visited _ _ _ Hwf) in Ho
        as (a' & b' & ra' & rb' & _ & Ha' & Hb' & Hk & ->).
      destruct Hc as [[Ea Eb]|[Ea Eb]]; simpl in Ea, Eb; subst a' b'.
      + congruence.
      + rewrite spread_of_sym. congruence.
    - intros Hk.
      assert (Hqa : In a (qualifying table sym))
        by (apply (qualifying_raw_rate _ _ Hwf); eauto).
      assert (Hqb : In b (qualifying table sym))
        by (apply (qualifying_raw_rate _ _ Hwf); eauto).
      destruct (precedes_total _ _ _ Hqa Hqb Hne) as [Hab|Hba].
      + exists (opportunity sym a ra b rb). split.
        * apply Hin, (in_visited _ _ _ Hwf). exists a, b, ra, rb. auto.
        * left. auto.
      + exists (opportunity sym b rb a ra). split.
        * apply Hin, (in_visited _ _ _ Hwf). exists b, a, rb, ra.
          rewrite spread_of_sym. auto.
        * right. auto. }
  split; [exact Hiff|].
  intros Heq. apply Hiff. now apply float_eqb_geb.
Qed.

Lemma spread_filter_witness :
  ((exists o, In o [opportunity "BTC" "ex_a" 100 "ex_b" 0] /\
              compares o "ex_a" "ex_b") <->
   Float64.geb (spread_of 100 0) one_hundredth = true) /\
  (Float64.eqb (spread_of 100 0) one_hundredth = true ->
   exists o, In o [opportunity "BTC" "ex_a" 100 "ex_b" 0] /\
             compares o "ex_a" "ex_b").
Proof.
  assert (Hne : "ex_a"%string <> "ex_b"%string) by discriminate.
  apply (proj2 (spread_filter boundary_table "BTC" one_hundredth
                  "ex_a" "ex_b" 100 0 eq_refl Hne eq_refl eq_refl)
               [opportunity "BTC" "ex_a" 100 "ex_b" 0]).
  reflexivity.
Defined.

(** the boundary is reached: the spread of the witness equals [0.01] *)
Example boundary_spread :
  Float64.eqb (spread_of 100 0) one_hundredth = true.
Proof. vm_compute. reflexivity. Qed.

(** ** C4 *)

(** C4.  The call returns whenever the rates are in range.  The returned
    list is in descending order of spread, and among opportunities of equal
    spread the order is that of the visit: first by the position of
    [exchange1] among the qualifying exchanges, then by the position of
    [exchange2].  Every class of equal spreads is the visited list's,
    unchanged. *)
Theorem sorted_stable (table : rates_table) (sym : string)
        (min_spread : float) :
  Dict.wf table = true ->
  (rates_in_range table sym ->
   exists opps,
     find_arbitrage_opportunities table sym min_spread = Returns opps) /\
  forall opps,
    find_arbitrage_opportunities table sym min_spread = Returns opps ->
    StronglySorted (descending_by spread) opps /\
    (forall o o',
        precedes opps o o' ->
        Float64.eqb (spread o) (spread o') = true ->
        precedes (qualifying table sym) (exchange1 o) (exchange1 o') \/
        (exchange1 o = exchange1 o' /\
         precedes (qualifying table sym) (exchange2 o) (exchange2 o'))) /\
    (forall k,
        filter (same_key spread k) opps
        = filter (same_key spread k) (visited table sym min_spread)).
Proof.
  intros Hwf.
  split; [now apply find_arbitrage_opportunities_returns|].
  intros opps Hfind.
  apply (find_Returns _ _ _ Hwf) in Hfind. subst opps.
  pose proof (visited_no_nan table sym min_spread Hwf) as Hnan.
  split; [|split].
  - now apply sort_reverse_sorted.
  - intros o o' Hoo' Heq.
    apply (sort_reverse_stable spread _ _ _ Hnan) in Hoo'; [|exact Heq].
    unfold visited, visit in Hoo'.
    apply precedes_filter in Hoo' as [Hoo' _].
    apply precedes_map in Hoo' as ([a b] & [c d] & -> & -> & H).
    simpl. now apply precedes_all_pairs.
  - intros k. apply filter_sort_reverse.
Qed.

Lemma sorted_stable_witness :
  StronglySorted (descending_by spread) example_result /\
  (forall o o',
      precedes example_result o o' ->
      Float64.eqb (spread o) (spread o') = true ->
      precedes (qualifying example_table "BTC") (exchange1 o) (exchange1 o') \/
      (exchange1 o = exchange1 o' /\
       precedes (qualifying example_table "BTC")
                (exchange2 o) (exchange2 o'))) /\
  (forall k,
      filter (same_key spread k) example_result
      = filter (same_key spread k)
               (visited example_table "BTC" one_hundredth)).
Proof.
  apply (proj2 (sorted_stable example_table "BTC" one_hundredth eq_refl)
               example_result).
  reflexivity.
Defined.

(** three equal rates: three opportunities of spread [0.0], returned in the
    order of the visit *)
Example ties_keep_visit_order :
  find_arbitrage_opportunities
    [("x", [("BTC", 7)]); ("y", [("BTC", 7)]); ("z", [("BTC", 7)])]%string
    "BTC" Float64.zero
  = Returns [opportunity "BTC" "x" 7 "y" 7;
             opportunity "BTC" "x" 7 "z" 7;
             opportunity "BTC" "y" 7 "z" 7].
Proof. vm_compute. reflexivity. Qed.

(** ** C5 *)

(** C5.  In every returned opportunity, whichever exchange of the pair has
    the strictly lower raw rate is the [long_exchange] and the other one
    the [short_exchange]. *)
Theorem lower_rate_is_long (table : rates_table) (sym : string)
        (min_spread : float) (opps : list Opportunity) (o : Opportunity)
        (lower other : string) (r_lower r_other : Z) :
  Dict.wf table = true ->
  find_arbitrage_opportunities table sym min_spread = Returns opps ->
  In o opps ->
  compares o lower other ->
  raw_rate table lower sym = Some r_lower ->
  raw_rate table other sym = Some r_other ->
  r_lower < r_other ->
  long_exchange o = lower /\ short_exchange o = other.
Proof.
  intros Hwf Hfind Ho Hc Hl Hh Hlt.
  apply (find_Returns _ _ _ Hwf) in Hfind. subst opps.
  apply (Permutation_in _ (sort_reverse_Permutation spread _)) in Ho.
  apply (in_visited _ _ _ Hwf) in Ho
    as (a & b & ra & rb & _ & Ha & Hb & _ & ->).
  destruct Hc as [[Ea Eb]|[Ea Eb]]; simpl in Ea, Eb; subst a b; simpl.
  - assert (ra = r_lower) by congruence. assert (rb = r_other) by congruence.
    subst. now rewrite (proj2 (Z.ltb_lt _ _) Hlt).
  - assert (ra = r_other) by congruence. assert (rb = r_lower) by congruence.
    subst. assert (E : (r_other <? r_lower) = false) by (apply Z.ltb_ge; lia).
    now rewrite E.
Qed.

Lemma lower_rate_is_long_witness :
  long_exchange (opportunity "BTC" "ex_b" 300 "ex_c" 50) = "ex_c"%string /\
  short_exchange (opportunity "BTC" "ex_b" 300 "ex_c" 50) = "ex_b"%string.
Proof.
  apply (lower_rate_is_long example_table "BTC" one_hundredth example_result
           (opportunity "BTC" "ex_b" 300 "ex_c" 50) "ex_c" "ex_b" 50 300);
    try reflexivity.
  - left. reflexivity.
  - right. split; reflexivity.
Defined.

(** ** C10 *)

(** C10.  In every returned opportunity the long and the short exchange are
    distinct, they are the two exchanges of the pair, the raw rate of the
    long one is at most that of the short one, and on equal raw rates
    [exchange2] is the long one and [exchange1] the short one. *)
Theorem long_short_assignment (table : rates_table) (sym : string)
        (min_spread : float) (opps : list Opportunity) (o : Opportunity) :
  Dict.wf table = true ->
  find_arbitrage_opportunities table sym min_spread = Returns opps ->
  In o opps ->
  long_exchange o <> short_exchange o /\
  compares o (long_exchange o) (short_exchange o) /\
  exists r_long r_short r1 r2,
    raw_rate table (long_exchange o) sym = Some r_long /\
    raw_rate table (short_exchange o) sym = Some r_short /\
    raw_rate table (exchange1 o) sym = Some r1 /\
    raw_rate table (exchange2 o) sym = Some r2 /\
    r_long <= r_short /\
    (r1 = r2 ->
     long_exchange o = exchange2 o /\ short_exchange o = exchange1 o).
Proof.
  intros Hwf Hfind Ho.
  pose proof (qualifying_NoDup table sym Hwf) as Hnd.
  apply (find_Returns _ _ _ Hwf) in Hfind. subst opps.
  apply (Permutation_in _ (sort_reverse_Permutation spread _)) in Ho.
  apply (in_visited _ _ _ Hwf) in Ho
    as (a & b & ra & rb & Hab & Ha & Hb & _ & ->).
  apply (precedes_NoDup_neq _ _ _ Hnd) in Hab.
  unfold compares; simpl.
  destruct (Z.ltb_spec ra rb) as [Hlt|Hge].
  - split; [exact Hab|]. split; [now left|].
    exists ra, rb, ra, rb. repeat split; auto; lia.
  - split; [congruence|]. split; [now right|].
    exists rb, ra, ra, rb. repeat split; auto.
Qed.

Lemma long_short_assignment_witness :
  let o := opportunity "BTC" "ex_a" 100 "ex_b" 100 in
  long_exchange o <> short_exchange o /\
  compares o (long_exchange o) (short_exchange o) /\
  exists r_long r_short r1 r2,
    raw_rate tie_table (long_exchange o) "BTC" = Some r_long /\
    raw_rate tie_table (short_exchange o) "BTC" = Some r_short /\
    raw_rate tie_table (exchange1 o) "BTC" = Some r1 /\
    raw_rate tie_table (exchange2 o) "BTC" = Some r2 /\
    r_long <= r_short /\
    (r1 = r2 ->
     long_exchange o = exchange2 o /\ short_exchange o = exchange1 o).
Proof.
  apply (long_short_assignment tie_table "BTC" Float64.zero
           [opportunity "BTC" "ex_a" 100 "ex_b" 100]).
  - reflexivity.
  - reflexivity.
  - left. reflexivity.
Defined.

(** equal raw rates do reach the result when [min_spread] is [0.0], and
    then the second exchange is the long one *)
Example tie_long_is_exchange2 :
  find_arbitrage_opportunities tie_table "BTC" Float64.zero
  = Returns [opportunity "BTC" "ex_a" 100 "ex_b" 100] /\
  long_exchange (opportunity "BTC" "ex_a" 100 "ex_b" 100) = "ex_b"%string /\
  short_exchange (opportunity "BTC" "ex_a" 100 "ex_b" 100) = "ex_a"%string.
Proof. vm_compute. auto. Qed.

(** ** C7 *)

(** C7.  When fewer than two exchanges quote the symbol the call returns
    the empty list, whatever [min_spread] is, and raises nothing. *)
Theorem fewer_than_two_is_empty (table : rates_table) (sym : string)
        (min_spread : float) :
  (List.length (quoting table sym) < 2)%nat ->
  find_arbitrage_opportunities table sym min_spread = Returns [].
Proof.
  intros H. unfold find_arbitrage_opportunities.
  pose proof (collect_rates_length sym (Dict.items table) Dict.empty) as Hl.
  simpl in Hl. unfold Dict.items in *.
  destruct (Nat.ltb_spec (List.length (collect_rates table sym Dict.empty)) 2)
    as [_|Hge]; [reflexivity|lia].
Qed.

Lemma fewer_than_two_is_empty_witness :
  find_arbitrage_opportunities example_table "ETH" one_hundredth = Returns []
  /\ find_arbitrage_opportunities
       [("ex_a", [("BTC", 2 ^ 2000)])]%string "BTC" S754_nan = Returns [].
Proof.
  split.
  - apply (fewer_than_two_is_empty example_table "ETH" one_hundredth).
    simpl. lia.
  - apply (fewer_than_two_is_empty
             [("ex_a", [("BTC", 2 ^ 2000)])]%string "BTC" S754_nan).
    simpl. lia.
Defined.

(** ** C6 *)

(** C6.  When the exchange is not a key of [funding_rates], or the symbol
    is not a key of that exchange's table, [get_rate] returns [None] and
    raises nothing. *)
Theorem get_rate_not_found (table : rates_table) (exchange sym : string) :
  Dict.mem exchange table = false \/
  (exists symbols, Dict.get table exchange = Some symbols /\
                   Dict.mem sym symbols = false) ->
  get_rate table exchange sym = Returns None.
Proof.
  unfold get_rate, Dict.mem.
  intros [H|(symbols & -> & H)].
  - now destruct (Dict.get table exchange).
  - now destruct (Dict.get symbols sym).
Qed.

Lemma get_rate_not_found_witness :
  get_rate example_table "ex_z" "BTC" = Returns None /\
  get_rate example_table "ex_a" "ETH" = Returns None.
Proof.
  split.
  - apply (get_rate_not_found example_table "ex_z" "BTC").
    left. reflexivity.
  - apply (get_rate_not_found example_table "ex_a" "ETH").
    right. exists [("BTC", 100)]%string. split; reflexivity.
Defined.

(** ** C8 *)

(** C8.  A 2xx response whose body decodes to a JSON object yields a
    snapshot, never an error; each field holds the body's value under its
    key, and a key the body lacks gives the default: empty containers for
    [symbols], [exchanges], [funding_rates] and [oi_rankings], ["500+"]
    for [default_oi_rank], the empty string for [timestamp].  The default
    of [funding_rates] is the empty rate table. *)
Theorem missing_fields_default (r : Http.response)
        (fields : dict Json.value) :
  200 <= Http.status_code r < 300 ->
  Http.json r = inr (Json.Object fields) ->
  exists data,
    get_funding_rates (Http.Responded r) = Returns data /\
    symbols data = field_or fields "symbols" (Json.Array []) /\
    exchanges data = field_or fields "exchanges" (Json.Object []) /\
    funding_rates data = field_or fields "funding_rates" (Json.Object []) /\
    oi_rankings data = field_or fields "oi_rankings" (Json.Object []) /\
    default_oi_rank data = field_or fields "default_oi_rank" (Json.Str "500+") /\
    timestamp data = field_or fields "timestamp" (Json.Str "") /\
    (Dict.mem "symbols" fields = false -> symbols data = Json.Array []) /\
    (Dict.mem "exchanges" fields = false -> exchanges data = Json.Object []) /\
    (Dict.mem "funding_rates" fields = false ->
     funding_rates data = Json.Object [] /\
     Json.as_rates (funding_rates data) = Some []) /\
    (Dict.mem "oi_rankings" fields = false ->
     oi_rankings data = Json.Object []) /\
    (Dict.mem "default_oi_rank" fields = false ->
     default_oi_rank data = Json.Str "500+") /\
    (Dict.mem "timestamp" fields = false -> timestamp data = Json.Str "").
Proof.
  intros Hstatus Hjson.
  unfold get_funding_rates, fetch, Http.raise_for_status, Http.response_json.
  simpl.
  replace (400 <=? Http.status_code r) with false
    by (symmetry; apply Z.leb_gt; lia).
  simpl. rewrite Hjson. simpl.
  eexists. split; [reflexivity|]. simpl.
  unfold field_or, Dict.mem.
  repeat split; try reflexivity; intros;
    match goal with
    | Hm : context [Dict.get fields ?k] |- _ =>
        destruct (Dict.get fields k); [discriminate Hm|reflexivity]
    end.
Qed.

Lemma missing_fields_default_witness :
  exists data,
    get_funding_rates (Http.Responded empty_object_response) = Returns data /\
    symbols data = field_or [] "symbols" (Json.Array []) /\
    exchanges data = field_or [] "exchanges" (Json.Object []) /\
    funding_rates data = field_or [] "funding_rates" (Json.Object []) /\
    oi_rankings data = field_or [] "oi_rankings" (Json.Object []) /\
    default_oi_rank data = field_or [] "default_oi_rank" (Json.Str "500+") /\
    timestamp data = field_or [] "timestamp" (Json.Str "") /\
    (Dict.mem "symbols" (@nil (string * Json.value)) = false ->
     symbols data = Json.Array []) /\
    (Dict.mem "exchanges" (@nil (string * Json.value)) = false ->
     exchanges data = Json.Object []) /\
    (Dict.mem "funding_rates" (@nil (string * Json.value)) = false ->
     funding_rates data = Json.Object [] /\
     Json.as_rates (funding_rates data) = Some []) /\
    (Dict.mem "oi_rankings" (@nil (string * Json.value)) = false ->
     oi_rankings data = Json.Object []) /\
    (Dict.mem "default_oi_rank" (@nil (string * Json.value)) = false ->
     default_oi_rank data = Json.Str "500+") /\
    (Dict.mem "timestamp" (@nil (string * Json.value)) = false ->
     timestamp data = Json.Str "").
Proof.
  apply (missing_fields_default empty_object_response []).
  - simpl. lia.
  - reflexivity.
Defined.

(** a body that has every field but [funding_rates] *)
Example funding_rates_missing :
  get_funding_rates
    (Http.Responded
       {| Http.status_code := 200;
          Http.http_error_msg := "";
          Http.json :=
            inr (Json.Object
                   [("symbols", Json.Array [Json.Str "BTC"]);
                    ("exchanges", Json.Object []);
                    ("oi_rankings", Json.Object []);
                    ("default_oi_rank", Json.Str "100+");
                    ("timestamp", Json.Str "2024-01-01T00:00:00Z")]%string) |})
  = Returns {| symbols := Json.Array [Json.Str "BTC"];
               exchanges := Json.Object [];
               funding_rates := Json.Object [];
               oi_rankings := Json.Object [];
               default_oi_rank := Json.Str "100+";
               timestamp := Json.Str "2024-01-01T00:00:00Z" |}.
Proof. reflexivity. Qed.

(** ** C9 *)

(** C9, as far as the code goes.  A failure of [session.get], a 4xx or 5xx
    status and an undecodable body each surface as [onlyfundingError] whose
    message ends with the cause's; the first two carry the prefix of the
    transport branch.  Every exception that is not an [onlyfundingError]
    comes from a body that decoded to something other than an object. *)
Theorem fetch_failures (h : Http.reply) :
  (forall cause,
      h = Http.Failed cause ->
      get_funding_rates h
      = Raises (onlyfundingError (transport_prefix ++ cause))) /\
  (forall r,
      h = Http.Responded r ->
      400 <= Http.status_code r < 600 ->
      get_funding_rates h
      = Raises (onlyfundingError (transport_prefix ++ Http.http_error_msg r))) /\
  (forall r msg,
      h = Http.Responded r ->
      ~ 400 <= Http.status_code r < 600 ->
      Http.json r = inl msg ->
      exists prefix,
        (prefix = transport_prefix \/ prefix = malformed_prefix) /\
        get_funding_rates h = Raises (onlyfundingError (prefix ++ msg))) /\
  (forall e,
      get_funding_rates h = Raises e ->
      (exists msg, e = onlyfundingError msg) \/
      (exists r v, h = Http.Responded r /\ Http.json r = inr v /\
                   forall fields, v <> Json.Object fields)).
Proof.
  unfold get_funding_rates, fetch, Http.raise_for_status, Http.response_json.
  repeat split.
  - now intros cause ->.
  - intros r -> Hs. simpl.
    replace ((400 <=? Http.status_code r) && (Http.status_code r <? 600))
      with true; [reflexivity|].
    symmetry. apply andb_true_iff. split; [apply Z.leb_le|apply Z.ltb_lt]; lia.
  - intros r msg -> Hs Hj. simpl.
    replace ((400 <=? Http.status_code r) && (Http.status_code r <? 600))
      with false.
    + simpl. rewrite Hj. simpl. exists transport_prefix.
      split; [left|]; reflexivity.
    + symmetry. apply andb_false_iff.
      destruct (Z.leb_spec 400 (Http.status_code r)); auto.
      right. apply Z.ltb_ge. lia.
  - intros e. destruct h as [cause|r]; simpl.
    + intros [= <-]. left. eexists. reflexivity.
    + destruct ((400 <=? Http.status_code r) && (Http.status_code r <? 600));
        simpl; [intros [= <-]; left; eexists; reflexivity|].
      destruct (Http.json r) as [msg|v] eqn:Hj; simpl;
        [intros [= <-]; left; eexists; reflexivity|].
      destruct v; simpl; try discriminate;
        intros _; right; exists r; eexists; (split; [reflexivity|]);
        (split; [exact Hj|]); intros fields; discriminate.
Qed.

(** C9 as stated fails: a response outside 2xx, here a 300 whose body is
    a JSON object, raises nothing, because [raise_for_status] lets every
    status outside 400-599 through. *)
Lemma non_2xx_without_error :
  ~ 200 <= Http.status_code multiple_choices_response < 300 /\
  get_funding_rates (Http.Responded multiple_choices_response)
  = Returns {| symbols := Json.Array [];
               exchanges := Json.Object [];
               funding_rates := Json.Object [];
               oi_rankings := Json.Object [];
               default_oi_rank := Json.Str "500+";
               timestamp := Json.Str "" |} /\
  forall e, get_funding_rates (Http.Responded multiple_choices_response)
            <> Raises e.
Proof.
  split; [simpl; lia|]. split; [reflexivity|]. intros e; discriminate.
Qed.

(** a 200 response whose body is a JSON array: the [AttributeError] of
    [data.get] passes both [except] clauses *)
Example array_body_escapes :
  get_funding_rates
    (Http.Responded {| Http.status_code := 200;
                       Http.http_error_msg := "";
                       Http.json := inr (Json.Array []) |})
  = Raises (AttributeError "'list' object has no attribute 'get'").
Proof. reflexivity. Qed.

(** a 404 lands in the transport branch *)
Example not_found_is_transport :
  get_funding_rates
    (Http.Responded
       {| Http.status_code := 404;
          Http.http_error_msg := "404 Client Error: Not Found for url: /funding";
          Http.json := inl "Expecting value: line 1 column 1 (char 0)"%string |})
  = Raises (onlyfundingError
              "Failed to fetch funding rates: 404 Client Error: Not Found for url: /funding").
Proof. reflexivity. Qed.

(* ------------------------------------------------------------------ *)
(** * Further properties *)

(** ** Floats: signs and one more fact on the order *)

Section FloatSign.

Lemma binary_round_aux_sign (prec emax : Z) (sx : bool) (mx ex : Z)
      (lx : location) :
  0 <= mx -> has_sign sx (binary_round_aux prec emax sx mx ex lx).
Proof.
intros H; unfold binary_round_aux.
pose proof (shr_fexp_nonneg prec emax mx ex lx H) as H1.
destruct (shr_fexp prec emax mx ex lx) as [mrs' e']; simpl in H1.
pose proof (shr_fexp_nonneg prec emax _ e' loc_Exact
              (round_nearest_even_nonneg _ (loc_of_shr_record mrs') H1)) as H2.
destruct (shr_fexp prec emax _ e' loc_Exact) as [mrs'' e'']; simpl in H2.
destruct (shr_m mrs'') as [|m|m]; simpl; try reflexivity; try lia.
now destruct (e'' <=? emax - prec).
Qed.

Lemma of_Z_sign (z : Z) : 0 <= z -> has_sign false (Float64.of_Z z).
Proof.
intros Hz. unfold Float64.of_Z, binary_normalize, binary_round.
destruct z as [|m|m]; try reflexivity; try lia.
destruct (shl_align m 0 _) as [mz ez].
now apply binary_round_aux_sign.
Qed.

Lemma div_ten_thousand_sign (x : float) :
  has_sign false x -> has_sign false (Float64.div x Float64.ten_thousand).
Proof.
unfold Float64.div, Float64.ten_thousand.
destruct x as [s|s| |s m e]; simpl; intros Hx; subst; try reflexivity;
  try contradiction.
pose proof (SFdiv_core_binary_nonneg Float64.prec Float64.emax m
              5497558138880000 e (-39)) as H.
destruct (SFdiv_core_binary _ _ _ _ _ _) as [[mz ez] lz]; simpl in H.
now apply binary_round_aux_sign.
Qed.

Lemma spread_of_sign (ra rb : Z) : has_sign false (spread_of ra rb).
Proof.
unfold spread_of, normalized. apply div_ten_thousand_sign, of_Z_sign. lia.
Qed.

Lemma has_sign_geb_zero (x : float) :
  has_sign false x -> Float64.geb x Float64.zero = true.
Proof. destruct x as [s|s| |s m e]; simpl; intros H; subst; easy. Qed.

Lemma float_leb_ltb_trans (x y z : float) :
  Float64.leb x y = true -> Float64.ltb y z = true ->
  Float64.ltb x z = true.
Proof.
unfold Float64.leb, Float64.ltb, SFleb, SFltb, SFcompare.
destruct x as [[|]|[|]| |[|] ? ?], y as [[|]|[|]| |[|] ? ?],
      z as [[|]|[|]| |[|] ? ?];
  simpl; try reflexivity; try discriminate; intros;
  repeat match goal with
         | |- context [Z.compare ?a ?b] =>
             destruct (Z.compare_spec a b); subst
         | |- context [Pos.compare_cont Eq ?a ?b] =>
             change (Pos.compare_cont Eq a b) with (Pos.compare a b);
             destruct (Pos.compare_spec a b); subst
         | H : context [Z.compare ?a ?b] |- _ =>
             destruct (Z.compare_spec a b); subst
         | H : context [Pos.compare_cont Eq ?a ?b] |- _ =>
             change (Pos.compare_cont Eq a b) with (Pos.compare a b) in H;
             destruct (Pos.compare_spec a b); subst
         end;
  simpl in *; try reflexivity; try discriminate; try lia.
Qed.

Lemma float_geb_nan (x : float) : Float64.geb x S754_nan = false.
Proof. now destruct x as [[|]|[|]| |[|] ? ?]. Qed.

End FloatSign.

(** ** The loops, exception by exception *)

Section LoopOutcome.

Variables (rates : dict Z) (sym : string) (min_spread : float).

Lemma visit_cons (p : string * string) (pairs : list (string * string)) :
  visit rates sym min_spread (p :: pairs)
  = if keeps min_spread (opportunity_of rates sym p)
    then opportunity_of rates sym p :: visit rates sym min_spread pairs
    else visit rates sym min_spread pairs.
Proof. reflexivity. Qed.

Lemma inner_loop_outcome (exchange1 : string) (rest : list string)
      (opportunities : list Opportunity) :
  incl (exchange1 :: rest) (Dict.keys rates) ->
  inner_loop rates sym min_spread exchange1 rest opportunities
  = if forallb (pair_fits rates min_spread) (map (pair exchange1) rest)
    then Returns (opportunities
                    ++ visit rates sym min_spread (map (pair exchange1) rest))
    else Raises OverflowError.
Proof.
revert opportunities.
induction rest as [|exchange2 rest IH]; intros opportunities Hin.
- simpl. now rewrite app_nil_r.
- assert (Hin' : incl (exchange1 :: rest) (Dict.keys rates)).
  { intros e [<-|He]; apply Hin; simpl; auto. }
  destruct (In_get rates exchange1) as [r1 E1]; [apply Hin; simpl; auto|].
  destruct (In_get rates exchange2) as [r2 E2]; [apply Hin; simpl; auto|].
  cbn [inner_loop map forallb]. rewrite visit_cons.
  unfold Dict.getitem, pair_fits, keeps, opportunity_of, rate_of.
  cbn [fst snd spread opportunity]. rewrite E1, E2. cbn [bind].
  destruct (fits (Z.abs (r1 - r2))) eqn:Fd.
  + rewrite (div_10000_fits _ Fd). cbn [bind andb].
    fold (spread_of r1 r2).
    destruct (Float64.geb (spread_of r1 r2) min_spread).
    * destruct (fits r1) eqn:F1.
      -- rewrite (div_10000_fits _ F1). cbn [bind andb].
         destruct (fits r2) eqn:F2.
         ++ rewrite (div_10000_fits _ F2). cbn [bind].
            rewrite (IH _ Hin'). fold (opportunity sym exchange1 r1 exchange2 r2).
            destruct (forallb _ _); [|reflexivity].
            now rewrite <- app_assoc.
         ++ now rewrite (div_10000_overflow _ F2).
      -- now rewrite (div_10000_overflow _ F1).
    * cbn [andb]. apply (IH _ Hin').
  + now rewrite (div_10000_overflow _ Fd).
Qed.

Lemma outer_loop_outcome (exchanges : list string)
      (opportunities : list Opportunity) :
  incl exchanges (Dict.keys rates) ->
  outer_loop rates sym min_spread exchanges opportunities
  = if forallb (pair_fits rates min_spread) (all_pairs exchanges)
    then Returns (opportunities
                    ++ visit rates sym min_spread (all_pairs exchanges))
    else Raises OverflowError.
Proof.
revert opportunities.
induction exchanges as [|exchange1 rest IH]; intros opportunities Hin.
- simpl. now rewrite app_nil_r.
- cbn [outer_loop all_pairs]. rewrite forallb_app, inner_loop_outcome by exact Hin.
  destruct (forallb _ (map (pair exchange1) rest)); cbn [bind andb];
    [|reflexivity].
  rewrite IH by (intros e He; apply Hin; simpl; auto).
  destruct (forallb _ (all_pairs rest)); [|reflexivity].
  unfold visit. now rewrite map_app, filter_app, app_assoc.
Qed.

End LoopOutcome.

Lemma find_outcome_wf (table : rates_table) (sym : string)
      (min_spread : float) :
  Dict.wf table = true ->
  find_arbitrage_opportunities table sym min_spread
  = if forallb (pair_fits (quoted table sym) min_spread)
               (all_pairs (qualifying table sym))
    then Returns (sort_reverse spread (visited table sym min_spread))
    else Raises OverflowError.
Proof.
intros Hwf. unfold find_arbitrage_opportunities, visited.
rewrite collect_rates_wf by exact Hwf.
rewrite <- keys_quoted.
destruct (List.length (quoted table sym) <? 2)%nat eqn:E.
- apply Nat.ltb_lt in E.
  rewrite all_pairs_short; [reflexivity|].
  unfold Dict.keys. now rewrite length_map.
- rewrite outer_loop_outcome by apply incl_refl.
  now destruct (forallb _ _).
Qed.

Lemma find_Returns_fits (table : rates_table) (sym : string)
      (min_spread : float) (opps : list Opportunity) :
  Dict.wf table = true ->
  find_arbitrage_opportunities table sym min_spread = Returns opps ->
  forallb (pair_fits (quoted table sym) min_spread)
          (all_pairs (qualifying table sym)) = true.
Proof.
intros Hwf. rewrite find_outcome_wf by exact Hwf.
now destruct (forallb _ _).
Qed.

(** ** Small facts on lists *)

Lemma forallb_false_exists {A} (f : A -> bool) (l : list A) :
  forallb f l = false <-> exists x, In x l /\ f x = false.
Proof.
induction l as [|a l IH]; simpl.
- split; [discriminate|]. now intros (x & [] & _).
- rewrite andb_false_iff, IH. split.
  + intros [H|(x & Hx & Hf)]; eauto.
  + intros (x & [<-|Hx] & Hf); eauto.
Qed.

Lemma filter_all {A} (f : A -> bool) (l : list A) :
  (forall x, In x l -> f x = true) -> filter f l = l.
Proof.
induction l as [|a l IH]; simpl; intros H; [reflexivity|].
rewrite (H a) by auto. f_equal. apply IH. auto.
Qed.

Lemma filter_none {A} (f : A -> bool) (l : list A) :
  (forall x, In x l -> f x = false) -> filter f l = [].
Proof.
induction l as [|a l IH]; simpl; intros H; [reflexivity|].
rewrite (H a) by auto. apply IH. auto.
Qed.

Lemma filter_length_le {A} (f : A -> bool) (l : list A) :
  (List.length (filter f l) <= List.length l)%nat.
Proof.
induction l as [|a l IH]; simpl; [lia|]. destruct (f a); simpl; lia.
Qed.

Lemma filter_narrow {A} (f g : A -> bool) (l : list A) :
  (forall x, f x = true -> g x = true) ->
  filter f (filter g l) = filter f l.
Proof.
intros H. induction l as [|a l IH]; simpl; [reflexivity|].
destruct (g a) eqn:G; simpl.
- now rewrite IH.
- destruct (f a) eqn:F; [|exact IH]. apply H in F. congruence.
Qed.

Lemma all_pairs_length {A} (l : list A) :
  (2 * List.length (all_pairs l)
   = List.length l * (List.length l - 1))%nat.
Proof.
induction l as [|x l IH]; simpl; [reflexivity|].
rewrite length_app, length_map. nia.
Qed.

Lemma precedes_qualifying (table : rates_table) (sym a b : string) :
  precedes (qualifying table sym) a b -> precedes (Dict.keys table) a b.
Proof.
unfold qualifying, quoting, Dict.keys. intros H.
apply precedes_map in H as (x & y & -> & -> & H).
apply precedes_filter in H as [H _].
apply precedes_map. eauto.
Qed.

(** ** The exceptions of [find_arbitrage_opportunities] *)

(** X1.  On a snapshot the call raises nothing but [OverflowError], and it
    raises it exactly when some visited pair has a spread beyond the
    doubles, or passes the spread test with a rate beyond the doubles. *)
Theorem overflow_is_the_only_exception (table : rates_table) (sym : string)
        (min_spread : float) :
  Dict.wf table = true ->
  (forall e,
      find_arbitrage_opportunities table sym min_spread = Raises e ->
      e = OverflowError) /\
  (find_arbitrage_opportunities table sym min_spread = Raises OverflowError
   <->
   exists a b ra rb,
     precedes (qualifying table sym) a b /\
     raw_rate table a sym = Some ra /\
     raw_rate table b sym = Some rb /\
     (fits (Z.abs (ra - rb)) = false \/
      (Float64.geb (spread_of ra rb) min_spread = true /\
       (fits ra = false \/ fits rb = false)))).
Proof.
intros Hwf. rewrite (find_outcome_wf _ _ _ Hwf).
assert (Hpair : forall a b,
           precedes (qualifying table sym) a b ->
           exists ra rb,
             raw_rate table a sym = Some ra /\
             raw_rate table b sym = Some rb /\
             pair_fits (quoted table sym) min_spread (a, b)
             = fits (Z.abs (ra - rb)) &&
               (if Float64.geb (spread_of ra rb) min_spread
                then fits ra && fits rb else true)).
{ intros a b Hab. destruct (precedes_In _ _ _ Hab) as [Ha Hb].
  apply (qualifying_raw_rate _ _ Hwf) in Ha as [ra Ha], Hb as [rb Hb].
  exists ra, rb. repeat split; auto.
  unfold pair_fits; simpl.
  now rewrite (rate_of_quoted _ _ Hwf _ _ Ha), (rate_of_quoted _ _ Hwf _ _ Hb). }
destruct (forallb _ _) eqn:E.
- split; [discriminate|]. split; [discriminate|].
  intros (a & b & ra & rb & Hab & Ha & Hb & Hbad). exfalso.
  rewrite forallb_forall in E.
  specialize (E (a, b) (proj2 (in_all_pairs _ _ _) Hab)).
  destruct (Hpair a b Hab) as (ra' & rb' & Ha' & Hb' & Hp).
  rewrite Hp in E. assert (ra' = ra) by congruence.
  assert (rb' = rb) by congruence. subst.
  apply andb_true_iff in E as [E1 E2].
  destruct Hbad as [H|[Hk H]]; [congruence|].
  rewrite Hk in E2. apply andb_true_iff in E2 as [E2 E3].
  destruct H; congruence.
- split; [now intros e [= <-]|]. split; [|reflexivity]. intros _.
  apply forallb_false_exists in E as ([a b] & Hin & Hp).
  apply in_all_pairs in Hin.
  destruct (Hpair a b Hin) as (ra & rb & Ha & Hb & Hp').
  exists a, b, ra, rb. repeat split; auto.
  rewrite Hp' in Hp. apply andb_false_iff in Hp as [Hp|Hp]; [now left|].
  right. destruct (Float64.geb _ _); [|discriminate].
  split; [reflexivity|]. now apply andb_false_iff in Hp.
Qed.

Lemma overflow_is_the_only_exception_witness :
  (forall e,
      find_arbitrage_opportunities huge_table "BTC" Float64.zero = Raises e ->
      e = OverflowError) /\
  (find_arbitrage_opportunities huge_table "BTC" Float64.zero
   = Raises OverflowError
   <->
   exists a b ra rb,
     precedes (qualifying huge_table "BTC") a b /\
     raw_rate huge_table a "BTC" = Some ra /\
     raw_rate huge_table b "BTC" = Some rb /\
     (fits (Z.abs (ra - rb)) = false \/
      (Float64.geb (spread_of ra rb) Float64.zero = true /\
       (fits ra = false \/ fits rb = false)))).
Proof.
apply (overflow_is_the_only_exception huge_table "BTC" Float64.zero).
reflexivity.
Defined.

(** two equal rates beyond the doubles: an exception when the pair passes
    the test, the empty list when it does not *)
Example huge_rates :
  find_arbitrage_opportunities huge_table "BTC" Float64.zero
  = Raises OverflowError /\
  find_arbitrage_opportunities huge_table "BTC" one_hundredth = Returns [].
Proof. split; vm_compute; reflexivity. Qed.

(** ** What every returned opportunity holds *)

(** X2.  The spread of a returned opportunity is
    [|rate1 - rate2| / 10000.0] for the raw rates of its own two
    exchanges; it is at least [min_spread], at least [0.0], and no NaN. *)
Theorem returned_spread (table : rates_table) (sym : string)
        (min_spread : float) (opps : list Opportunity) (o : Opportunity) :
  Dict.wf table = true ->
  find_arbitrage_opportunities table sym min_spread = Returns opps ->
  In o opps ->
  exists r1 r2,
    raw_rate table (exchange1 o) sym = Some r1 /\
    raw_rate table (exchange2 o) sym = Some r2 /\
    spread o = spread_of r1 r2 /\
    Float64.geb (spread o) min_spread = true /\
    Float64.geb (spread o) Float64.zero = true /\
    Float64.is_nan (spread o) = false.
Proof.
intros Hwf Hfind Ho.
apply (find_Returns _ _ _ Hwf) in Hfind. subst opps.
apply (Permutation_in _ (sort_reverse_Permutation spread _)) in Ho.
apply (in_visited _ _ _ Hwf) in Ho
  as (a & b & ra & rb & _ & Ha & Hb & Hk & ->).
exists ra, rb. simpl. repeat split; auto.
- apply has_sign_geb_zero, spread_of_sign.
- apply div_ten_thousand_not_nan, of_Z_not_nan.
Qed.

Lemma returned_spread_witness :
  exists r1 r2,
    raw_rate example_table "ex_b" "BTC" = Some r1 /\
    raw_rate example_table "ex_c" "BTC" = Some r2 /\
    spread (opportunity "BTC" "ex_b" 300 "ex_c" 50) = spread_of r1 r2 /\
    Float64.geb (spread (opportunity "BTC" "ex_b" 300 "ex_c" 50))
                one_hundredth = true /\
    Float64.geb (spread (opportunity "BTC" "ex_b" 300 "ex_c" 50))
                Float64.zero = true /\
    Float64.is_nan (spread (opportunity "BTC" "ex_b" 300 "ex_c" 50)) = false.
Proof.
apply (returned_spread example_table "BTC" one_hundredth example_result
         (opportunity "BTC" "ex_b" 300 "ex_c" 50)).
- reflexivity.
- reflexivity.
- left. reflexivity.
Defined.

(** X3.  A returned opportunity carries the requested symbol, and its
    [exchange1] is the one of the pair that comes first in the snapshot. *)
Theorem returned_symbol_and_order (table : rates_table) (sym : string)
        (min_spread : float) (opps : list Opportunity) (o : Opportunity) :
  Dict.wf table = true ->
  find_arbitrage_opportunities table sym min_spread = Returns opps ->
  In o opps ->
  symbol o = sym /\
  precedes (Dict.keys table) (exchange1 o) (exchange2 o).
Proof.
intros Hwf Hfind Ho.
apply (find_Returns _ _ _ Hwf) in Hfind. subst opps.
apply (Permutation_in _ (sort_reverse_Permutation spread _)) in Ho.
apply (in_visited _ _ _ Hwf) in Ho
  as (a & b & ra & rb & Hab & _ & _ & _ & ->).
simpl. split; [reflexivity|]. now apply (precedes_qualifying table sym).
Qed.

Lemma returned_symbol_and_order_witness :
  symbol (opportunity "BTC" "ex_b" 300 "ex_c" 50) = "BTC"%string /\
  precedes (Dict.keys example_table) "ex_b"%string "ex_c"%string.
Proof.
apply (returned_symbol_and_order example_table "BTC" one_hundredth
         example_result (opportunity "BTC" "ex_b" 300 "ex_c" 50)).
- reflexivity.
- reflexivity.
- left. reflexivity.
Defined.

(** ** How many opportunities come back *)

(** X4.  With [min_spread] at most [0.0], the default included, nothing is
    filtered: the call returns one opportunity for each of the
    [n * (n - 1) / 2] pairs of the [n] qualifying exchanges. *)
Theorem nothing_filtered_at_zero (table : rates_table) (sym : string)
        (min_spread : float) (opps : list Opportunity) :
  Dict.wf table = true ->
  Float64.leb min_spread Float64.zero = true ->
  find_arbitrage_opportunities table sym min_spread = Returns opps ->
  Permutation opps
              (map (opportunity_of (quoted table sym) sym)
                   (all_pairs (qualifying table sym))) /\
  (2 * List.length opps
   = List.length (qualifying table sym)
     * (List.length (qualifying table sym) - 1))%nat.
Proof.
intros Hwf Hms Hfind.
apply (find_Returns _ _ _ Hwf) in Hfind.
assert (Hperm : Permutation opps (visited table sym min_spread))
  by (subst opps; apply sort_reverse_Permutation).
assert (Hall : visited table sym min_spread
               = map (opportunity_of (quoted table sym) sym)
                     (all_pairs (qualifying table sym))).
{ unfold visited, visit. apply filter_all. intros o Ho.
  apply in_map_iff in Ho as ([a b] & <- & _).
  unfold keeps, opportunity_of. simpl.
  apply float_leb_trans with Float64.zero; [exact Hms|].
  apply (has_sign_geb_zero _ (spread_of_sign _ _)). }
rewrite Hall in Hperm. split; [exact Hperm|].
rewrite (Permutation_length Hperm), length_map. apply all_pairs_length.
Qed.

Lemma nothing_filtered_at_zero_witness :
  Permutation [opportunity "BTC" "ex_a" 100 "ex_b" 100]
              (map (opportunity_of (quoted tie_table "BTC") "BTC")
                   (all_pairs (qualifying tie_table "BTC"))) /\
  (2 * List.length [opportunity "BTC" "ex_a" 100 "ex_b" 100]
   = List.length (qualifying tie_table "BTC")
     * (List.length (qualifying tie_table "BTC") - 1))%nat.
Proof.
apply (nothing_filtered_at_zero tie_table "BTC" Float64.zero
         [opportunity "BTC" "ex_a" 100 "ex_b" 100]); reflexivity.
Defined.

(** X5.  The call never returns more than [n * (n - 1) / 2]
    opportunities for [n] qualifying exchanges, and with a NaN for
    [min_spread] it returns none. *)
Theorem at_most_all_pairs (table : rates_table) (sym : string)
        (min_spread : float) (opps : list Opportunity) :
  Dict.wf table = true ->
  find_arbitrage_opportunities table sym min_spread = Returns opps ->
  (2 * List.length opps
   <= List.length (qualifying table sym)
      * (List.length (qualifying table sym) - 1))%nat /\
  (Float64.is_nan min_spread = true -> opps = []).
Proof.
intros Hwf Hfind.
apply (find_Returns _ _ _ Hwf) in Hfind.
split.
- assert (Hperm : Permutation opps (visited table sym min_spread))
    by (subst opps; apply sort_reverse_Permutation).
  rewrite (Permutation_length Hperm), <- all_pairs_length.
  unfold visited, visit.
  pose proof (filter_length_le (keeps min_spread)
                (map (opportunity_of (quoted table sym) sym)
                     (all_pairs (qualifying table sym)))) as H.
  rewrite length_map in H. lia.
- intros Hnan. destruct min_spread; try discriminate.
  subst opps. unfold visited, visit.
  rewrite filter_none; [reflexivity|].
  intros o _. apply float_geb_nan.
Qed.

Lemma at_most_all_pairs_witness :
  (2 * List.length (@nil Opportunity)
   <= List.length (qualifying example_table "BTC")
      * (List.length (qualifying example_table "BTC") - 1))%nat /\
  (Float64.is_nan S754_nan = true -> @nil Opportunity = []).
Proof.
apply (at_most_all_pairs example_table "BTC" S754_nan []); reflexivity.
Defined.

(** ** Sorting and filtering commute *)

Section SortFilter.

Context {A : Type} (key : A -> float) (p : A -> bool).

Lemma insert_at_head (x : A) (l : list A) :
  (forall z, In z l -> Float64.ltb (key z) (key x) = false) ->
  insert key x l = x :: l.
Proof.
destruct l as [|y l]; simpl; intros H; [reflexivity|].
now rewrite (H y) by auto.
Qed.

Lemma filter_insert_sorted (x : A) (l : list A) :
  StronglySorted (ascending_by key) l ->
  filter p (insert key x l)
  = if p x then insert key x (filter p l) else filter p l.
Proof.
induction l as [|y l IH]; intros Hs.
- simpl. now destruct (p x).
- apply StronglySorted_inv in Hs as [Hs Hy].
  cbn [insert]. destruct (Float64.ltb (key y) (key x)) eqn:Hlt.
  + cbn [filter]. rewrite (IH Hs).
    destruct (p x), (p y); try reflexivity.
    cbn [insert]. now rewrite Hlt.
  + change (filter p (x :: y :: l))
      with (if p x then x :: filter p (y :: l) else filter p (y :: l)).
    destruct (p x) eqn:Px; [|reflexivity].
    symmetry. apply insert_at_head.
    intros z Hz. apply filter_In in Hz as [Hz _].
    destruct Hz as [<-|Hz]; [exact Hlt|].
    rewrite Forall_forall in Hy. specialize (Hy z Hz).
    destruct (Float64.ltb (key z) (key x)) eqn:Hzx; [|reflexivity].
    rewrite (float_leb_ltb_trans _ _ _ Hy Hzx) in Hlt. discriminate.
Qed.

Lemma filter_sort_ascending_commute (l : list A) :
  Forall (no_nan_key key) l ->
  filter p (sort_ascending key l) = sort_ascending key (filter p l).
Proof.
induction l as [|x l IH]; intros Hl; [reflexivity|].
apply Forall_cons_iff in Hl as [Hx Hl].
cbn [sort_ascending fold_right filter]. fold (sort_ascending key l).
rewrite filter_insert_sorted by now apply sort_ascending_sorted.
rewrite (IH Hl). now destruct (p x).
Qed.

Lemma filter_sort_reverse_commute (l : list A) :
  Forall (no_nan_key key) l ->
  filter p (sort_reverse key l) = sort_reverse key (filter p l).
Proof.
intros Hl. unfold sort_reverse.
rewrite filter_rev, filter_sort_ascending_commute, filter_rev;
  [reflexivity|].
now apply (Permutation_Forall (Permutation_rev l)).
Qed.

End SortFilter.

(** ** Raising [min_spread] *)

(** X6.  A larger [min_spread] only removes opportunities: the list
    returned for the larger value is the list returned for the smaller one
    without the entries whose spread is below the larger value, in the
    same order. *)
Theorem raising_min_spread_filters (table : rates_table) (sym : string)
        (low high : float) (opps_low opps_high : list Opportunity) :
  Dict.wf table = true ->
  Float64.leb low high = true ->
  find_arbitrage_opportunities table sym low = Returns opps_low ->
  find_arbitrage_opportunities table sym high = Returns opps_high ->
  opps_high = filter (keeps high) opps_low.
Proof.
intros Hwf Hle Hlow Hhigh.
apply (find_Returns _ _ _ Hwf) in Hlow, Hhigh. subst.
rewrite filter_sort_reverse_commute by now apply visited_no_nan.
f_equal. unfold visited, visit. symmetry. apply filter_narrow.
intros o Ho. unfold keeps in *.
now apply float_leb_trans with high.
Qed.

Lemma raising_min_spread_filters_witness :
  example_result
  = filter (keeps one_hundredth)
           [opportunity "BTC" "ex_b" 300 "ex_c" 50;
            opportunity "BTC" "ex_a" 100 "ex_b" 300;
            opportunity "BTC" "ex_a" 100 "ex_c" 50].
Proof.
apply (raising_min_spread_filters example_table "BTC" Float64.zero
         one_hundredth); reflexivity.
Defined.

(** ** What the result does not depend on *)

Lemma quoted_restricted (table : rates_table) (sym : string) :
  quoted (restricted table sym) sym = quoted table sym.
Proof.
unfold restricted.
induction (quoted table sym) as [|[e r] l IH]; simpl; [reflexivity|].
rewrite String.eqb_refl. simpl. now rewrite IH.
Qed.

Lemma restricted_wf (table : rates_table) (sym : string) :
  Dict.wf table = true -> Dict.wf (restricted table sym) = true.
Proof.
intros Hwf. apply wf_NoDup.
replace (Dict.keys (restricted table sym)) with (qualifying table sym).
- now apply qualifying_NoDup.
- rewrite <- keys_quoted. unfold restricted, Dict.keys.
  rewrite map_map. reflexivity.
Qed.

(** X7.  The exchanges that do not quote the symbol and the rates of the
    other symbols have no influence: the call gives the same outcome on
    the snapshot cut down to the qualifying exchanges and the one
    symbol. *)
Theorem other_entries_ignored (table : rates_table) (sym : string)
        (min_spread : float) :
  Dict.wf table = true ->
  find_arbitrage_opportunities table sym min_spread
  = find_arbitrage_opportunities (restricted table sym) sym min_spread.
Proof.
intros Hwf. unfold find_arbitrage_opportunities.
rewrite !collect_rates_wf by auto using restricted_wf.
now rewrite quoted_restricted.
Qed.

Lemma other_entries_ignored_witness :
  find_arbitrage_opportunities
    [("ex_a", [("ETH", 9); ("BTC", 100)]); ("ex_x", [("ETH", 1)]);
     ("ex_b", [("BTC", 300)]); ("ex_c", [("BTC", 50); ("SOL", 2)])]%string
    "BTC" one_hundredth
  = find_arbitrage_opportunities
      (restricted
         [("ex_a", [("ETH", 9); ("BTC", 100)]); ("ex_x", [("ETH", 1)]);
          ("ex_b", [("BTC", 300)]); ("ex_c", [("BTC", 50); ("SOL", 2)])]%string
         "BTC")
      "BTC" one_hundredth.
Proof.
apply (other_entries_ignored
         [("ex_a", [("ETH", 9); ("BTC", 100)]); ("ex_x", [("ETH", 1)]);
          ("ex_b", [("BTC", 300)]); ("ex_c", [("BTC", 50); ("SOL", 2)])]%string
         "BTC" one_hundredth).
reflexivity.
Defined.

(** ** [get_rate]: what [None] means *)

(** X8.  [get_rate] returns [None] only for an absent key: a stored rate,
    zero included, gives a float or, beyond the doubles, Python's
    [OverflowError], the one exception the lookup can raise. *)
Theorem none_only_for_absence (table : rates_table) (exchange sym : string) :
  (get_rate table exchange sym = Returns None <->
   raw_rate table exchange sym = None) /\
  (forall e,
      get_rate table exchange sym = Raises e ->
      e = OverflowError /\
      exists r, raw_rate table exchange sym = Some r /\ fits r = false).
Proof.
unfold get_rate, raw_rate.
destruct (Dict.get table exchange) as [symbols|];
  [|split; [tauto|discriminate]].
destruct (Dict.get symbols sym) as [r|]; [|split; [tauto|discriminate]].
destruct (fits r) eqn:F.
- rewrite (div_10000_fits _ F). simpl. split; [|discriminate].
  split; discriminate.
- rewrite (div_10000_overflow _ F). simpl. split.
  + split; discriminate.
  + intros e [= <-]. eauto.
Qed.

(** ** [get_rate] and [find_arbitrage_opportunities] side by side *)

(** X9.  On one snapshot the two methods agree: the [rate1] and [rate2] of
    a returned opportunity are what [get_rate] returns for its
    [exchange1] and [exchange2]. *)
Theorem rates_agree_with_get_rate (table : rates_table) (sym : string)
        (min_spread : float) (opps : list Opportunity) (o : Opportunity) :
  Dict.wf table = true ->
  find_arbitrage_opportunities table sym min_spread = Returns opps ->
  In o opps ->
  get_rate table (exchange1 o) sym = Returns (Some (rate1 o)) /\
  get_rate table (exchange2 o) sym = Returns (Some (rate2 o)).
Proof.
intros Hwf Hfind Ho.
pose proof (find_Returns_fits _ _ _ _ Hwf Hfind) as Hfits.
apply (find_Returns _ _ _ Hwf) in Hfind. subst opps.
apply (Permutation_in _ (sort_reverse_Permutation spread _)) in Ho.
apply (in_visited _ _ _ Hwf) in Ho
  as (a & b & ra & rb & Hab & Ha & Hb & Hk & ->).
rewrite forallb_forall in Hfits.
specialize (Hfits (a, b) (proj2 (in_all_pairs _ _ _) Hab)).
unfold pair_fits in Hfits; simpl in Hfits.
rewrite (rate_of_quoted _ _ Hwf _ _ Ha), (rate_of_quoted _ _ Hwf _ _ Hb), Hk
  in Hfits.
apply andb_true_iff in Hfits as [_ Hfits].
apply andb_true_iff in Hfits as [Fa Fb].
unfold raw_rate in Ha, Hb. unfold get_rate. simpl.
destruct (Dict.get table a) as [sa|]; [|discriminate].
destruct (Dict.get table b) as [sb|]; [|discriminate].
rewrite Ha, Hb, (div_10000_fits _ Fa), (div_10000_fits _ Fb).
split; reflexivity.
Qed.

Lemma rates_agree_with_get_rate_witness :
  get_rate example_table
           (exchange1 (opportunity "BTC" "ex_a" 100 "ex_b" 300)) "BTC"
  = Returns (Some (rate1 (opportunity "BTC" "ex_a" 100 "ex_b" 300))) /\
  get_rate example_table
           (exchange2 (opportunity "BTC" "ex_a" 100 "ex_b" 300)) "BTC"
  = Returns (Some (rate2 (opportunity "BTC" "ex_a" 100 "ex_b" 300))).
Proof.
apply (rates_agree_with_get_rate example_table "BTC" one_hundredth
         example_result (opportunity "BTC" "ex_a" 100 "ex_b" 300)).
- reflexivity.
- reflexivity.
- right. left. reflexivity.
Defined.

(** ** [get_funding_rates]: when a snapshot comes back *)

(** X10.  [get_funding_rates] returns a snapshot exactly for a response
    whose status is outside 400-599 and whose body decodes to a JSON
    object; the snapshot then holds, field by field, the body's value or
    the default. *)
Theorem snapshot_iff_object_body (h : Http.reply) (data : FundingRatesData) :
  get_funding_rates h = Returns data <->
  exists r fields,
    h = Http.Responded r /\
    ~ 400 <= Http.status_code r < 600 /\
    Http.json r = inr (Json.Object fields) /\
    data = {| symbols := field_or fields "symbols" (Json.Array []);
              exchanges := field_or fields "exchanges" (Json.Object []);
              funding_rates :=
                field_or fields "funding_rates" (Json.Object []);
              oi_rankings := field_or fields "oi_rankings" (Json.Object []);
              default_oi_rank :=
                field_or fields "default_oi_rank" (Json.Str "500+");
              timestamp := field_or fields "timestamp" (Json.Str "") |}.
Proof.
unfold get_funding_rates, fetch, Http.raise_for_status, Http.response_json.
split.
- destruct h as [cause|r]; simpl; [discriminate|].
  destruct (Z.leb_spec 400 (Http.status_code r)) as [H1|H1];
    destruct (Z.ltb_spec (Http.status_code r) 600) as [H2|H2]; simpl;
    try discriminate;
    (destruct (Http.json r) as [msg|v] eqn:Hj; simpl; [discriminate|];
     destruct v; simpl; try discriminate;
     intros [= <-]; exists r; eexists;
     (split; [reflexivity|]); (split; [lia|]);
     (split; [exact Hj|]); reflexivity).
- intros (r & fields & -> & Hs & Hj & ->). simpl.
  replace ((400 <=? Http.status_code r) && (Http.status_code r <? 600))
    with false.
  + simpl. rewrite Hj. reflexivity.
  + symmetry. apply andb_false_iff.
    destruct (Z.leb_spec 400 (Http.status_code r)); auto.
    right. apply Z.ltb_ge. lia.
Qed.

(** ** The methods with their fetch *)

(** X11.  A failed request and a 4xx or 5xx response are not mistaken for
    an absent rate: [get_rate] raises the [onlyfundingError] of the fetch
    instead of returning [None], and [find_arbitrage_opportunities] raises
    it instead of returning an empty list. *)
Theorem failure_is_not_absence (h : Http.reply) (exchange sym : string)
        (min_spread : float) :
  (exists cause, h = Http.Failed cause) \/
  (exists r, h = Http.Responded r /\ 400 <= Http.status_code r < 600) ->
  exists msg,
    get_rate_call h exchange sym
    = Some (Raises (onlyfundingError (transport_prefix ++ msg))) /\
    find_arbitrage_opportunities_call h sym min_spread
    = Some (Raises (onlyfundingError (transport_prefix ++ msg))).
Proof.
unfold get_rate_call, find_arbitrage_opportunities_call, on_funding_rates,
  get_funding_rates, fetch, Http.raise_for_status.
intros [[cause ->]|(r & -> & Hs)].
- exists cause. split; reflexivity.
- exists (Http.http_error_msg r). simpl.
  replace ((400 <=? Http.status_code r) && (Http.status_code r <? 600))
    with true; [split; reflexivity|].
  symmetry. apply andb_true_iff. split; [apply Z.leb_le|apply Z.ltb_lt]; lia.
Qed.

Lemma failure_is_not_absence_witness :
  exists msg,
    get_rate_call (Http.Failed "timed out") "ex_a" "BTC"
    = Some (Raises (onlyfundingError (transport_prefix ++ msg))) /\
    find_arbitrage_opportunities_call (Http.Failed "timed out") "BTC"
                                      Float64.zero
    = Some (Raises (onlyfundingError (transport_prefix ++ msg))).
Proof.
apply (failure_is_not_absence (Http.Failed "timed out") "ex_a" "BTC"
         Float64.zero).
left. exists "timed out"%string. reflexivity.
Defined.

(** X12.  On a body that is an object without "funding_rates" the two
    methods find nothing and raise nothing: [get_rate] returns [None] for
    every exchange and symbol, [find_arbitrage_opportunities] the empty
    list for every symbol and [min_spread]. *)
Theorem missing_table_gives_nothing (r : Http.response)
        (exchange sym : string) (min_spread : float) :
  ~ 400 <= Http.status_code r < 600 ->
  lacks_funding_rates r ->
  get_rate_call (Http.Responded r) exchange sym = Some (Returns None) /\
  find_arbitrage_opportunities_call (Http.Responded r) sym min_spread
  = Some (Returns []).
Proof.
intros Hs (fields & Hj & Hm).
unfold get_rate_call, find_arbitrage_opportunities_call, on_funding_rates,
  get_funding_rates, fetch, Http.raise_for_status, Http.response_json.
simpl.
replace ((400 <=? Http.status_code r) && (Http.status_code r <? 600))
  with false.
- simpl. rewrite Hj. simpl.
  unfold Dict.mem in Hm.
  destruct (Dict.get fields "funding_rates"); [discriminate|].
  split; reflexivity.
- symmetry. apply andb_false_iff.
  destruct (Z.leb_spec 400 (Http.status_code r)); auto.
  right. apply Z.ltb_ge. lia.
Qed.

Lemma missing_table_gives_nothing_witness :
  get_rate_call (Http.Responded empty_object_response) "ex_a" "BTC"
  = Some (Returns None) /\
  find_arbitrage_opportunities_call (Http.Responded empty_object_response)
                                    "BTC" one_hundredth
  = Some (Returns []).
Proof.
apply (missing_table_gives_nothing empty_object_response "ex_a" "BTC"
         one_hundredth).
- simpl. lia.
- exists []. split; reflexivity.
Defined.

(** ** The example script *)

(** X13.  The example script tells a found rate from a missing one by
    truth value, so it prints "Rate not found" exactly when [get_rate]
    returned [None] or a float equal to [0.0]; a stored rate of 0, which
    [get_rate] does find, is among the latter. *)
Theorem zero_rate_reported_missing (table : rates_table)
        (exchange sym : string) (result : option float) :
  get_rate table exchange sym = Returns result ->
  (rate_report result = RateNotFound <->
   raw_rate table exchange sym = None \/
   exists r, raw_rate table exchange sym = Some r /\
             Float64.eqb (normalized r) Float64.zero = true) /\
  (raw_rate table exchange sym = Some 0 ->
   result = Some Float64.zero /\ rate_report result = RateNotFound).
Proof.
unfold get_rate, raw_rate.
destruct (Dict.get table exchange) as [symbols|].
- destruct (Dict.get symbols sym) as [r|].
  + destruct (fits r) eqn:F.
    * rewrite (div_10000_fits _ F). simpl. intros [= <-]. simpl. split.
      -- destruct (Float64.eqb (normalized r) Float64.zero) eqn:E.
         ++ split; [eauto|reflexivity].
         ++ split; [discriminate|].
            intros [H|(r' & [= <-] & H)]; [discriminate|congruence].
      -- intros [= ->]. split; reflexivity.
    * rewrite (div_10000_overflow _ F). discriminate.
  + intros [= <-]. simpl. split; [|discriminate]. split; auto.
- intros [= <-]. simpl. split; [|discriminate]. split; auto.
Qed.

Lemma zero_rate_reported_missing_witness :
  (rate_report (Some Float64.zero) = RateNotFound <->
   raw_rate zero_rate_table "ex_a" "BTC" = None \/
   exists r, raw_rate zero_rate_table "ex_a" "BTC" = Some r /\
             Float64.eqb (normalized r) Float64.zero = true) /\
  (raw_rate zero_rate_table "ex_a" "BTC" = Some 0 ->
   Some Float64.zero = Some Float64.zero /\
   rate_report (Some Float64.zero) = RateNotFound).
Proof.
apply (zero_rate_reported_missing zero_rate_table "ex_a" "BTC"
         (Some Float64.zero)).
reflexivity.
Defined.

(** X14.  The example script prints [rate1] on its "Long:" line and
    [rate2] on its "Short:" line.  When [exchange1] has the lower raw rate
    each exchange stands beside its own rate; otherwise the long exchange
    is [exchange2] and stands beside the rate of [exchange1], and the
    short exchange beside the rate of [exchange2]. *)
Theorem example_lines (table : rates_table) (sym : string)
        (min_spread : float) (opps : list Opportunity) (o : Opportunity)
        (r1 r2 : Z) :
  Dict.wf table = true ->
  find_arbitrage_opportunities table sym min_spread = Returns opps ->
  In o opps ->
  raw_rate table (exchange1 o) sym = Some r1 ->
  raw_rate table (exchange2 o) sym = Some r2 ->
  (r1 < r2 ->
   long_line o = (exchange1 o, normalized r1) /\
   short_line o = (exchange2 o, normalized r2)) /\
  (r2 <= r1 ->
   long_line o = (exchange2 o, normalized r1) /\
   short_line o = (exchange1 o, normalized r2)).
Proof.
intros Hwf Hfind Ho H1 H2.
apply (find_Returns _ _ _ Hwf) in Hfind. subst opps.
apply (Permutation_in _ (sort_reverse_Permutation spread _)) in Ho.
apply (in_visited _ _ _ Hwf) in Ho
  as (a & b & ra & rb & _ & Ha & Hb & _ & ->).
simpl in H1, H2.
assert (ra = r1) by congruence. assert (rb = r2) by congruence. subst.
unfold long_line, short_line; simpl.
destruct (Z.ltb_spec r1 r2); split; intros; try lia; split; reflexivity.
Qed.

Lemma example_lines_witness :
  (300 < 50 ->
   long_line (opportunity "BTC" "ex_b" 300 "ex_c" 50)
   = (exchange1 (opportunity "BTC" "ex_b" 300 "ex_c" 50), normalized 300) /\
   short_line (opportunity "BTC" "ex_b" 300 "ex_c" 50)
   = (exchange2 (opportunity "BTC" "ex_b" 300 "ex_c" 50), normalized 50)) /\
  (50 <= 300 ->
   long_line (opportunity "BTC" "ex_b" 300 "ex_c" 50)
   = (exchange2 (opportunity "BTC" "ex_b" 300 "ex_c" 50), normalized 300) /\
   short_line (opportunity "BTC" "ex_b" 300 "ex_c" 50)
   = (exchange1 (opportunity "BTC" "ex_b" 300 "ex_c" 50), normalized 50)).
Proof.
apply (example_lines example_table "BTC" one_hundredth example_result
         (opportunity "BTC" "ex_b" 300 "ex_c" 50) 300 50).
- reflexivity.
- reflexivity.
- left. reflexivity.
- reflexivity.
- reflexivity.
Defined.

(** X15.  The example script reads [data.exchanges['exchanges']] of the
    snapshot it fetched.  On a body that is an object without the key
    "exchanges", which [get_funding_rates] accepts and fills with the empty
    dict, that subscript raises [KeyError]. *)
Theorem example_needs_exchanges (r : Http.response)
        (fields : dict Json.value) :
  ~ 400 <= Http.status_code r < 600 ->
  Http.json r = inr (Json.Object fields) ->
  Dict.mem "exchanges" fields = false ->
  exists data,
    get_funding_rates (Http.Responded r) = Returns data /\
    exchange_count data = Some (Raises (KeyError "exchanges")).
Proof.
intros Hs Hj Hm.
unfold get_funding_rates, fetch, Http.raise_for_status, Http.response_json.
simpl.
replace ((400 <=? Http.status_code r) && (Http.status_code r <? 600))
  with false.
- simpl. rewrite Hj. simpl. eexists. split; [reflexivity|].
  unfold exchange_count; simpl. unfold Dict.mem in Hm.
  now destruct (Dict.get fields "exchanges").
- symmetry. apply andb_false_iff.
  destruct (Z.leb_spec 400 (Http.status_code r)); auto.
  right. apply Z.ltb_ge. lia.
Qed.

Lemma example_needs_exchanges_witness :
  exists data,
    get_funding_rates (Http.Responded empty_object_response) = Returns data /\
    exchange_count data = Some (Raises (KeyError "exchanges")).
Proof.
apply (example_needs_exchanges empty_object_response []).
- simpl. lia.
- reflexivity.
- reflexivity.
Defined.

(** X16.  The five opportunities the example script prints are five with
    the largest spreads: none that it leaves out has a larger spread than
    one that it prints. *)
Theorem top_five_are_largest (table : rates_table) (sym : string)
        (min_spread : float) (opps : list Opportunity)
        (shown hidden : Opportunity) :
  Dict.wf table = true ->
  find_arbitrage_opportunities table sym min_spread = Returns opps ->
  In shown (top_five opps) ->
  In hidden (skipn 5 opps) ->
  Float64.geb (spread shown) (spread hidden) = true.
Proof.
intros Hwf Hfind Hs Hh.
apply (find_Returns _ _ _ Hwf) in Hfind.
assert (Hsorted : StronglySorted (descending_by spread) opps).
{ subst opps. apply sort_reverse_sorted. now apply visited_no_nan. }
rewrite StronglySorted_precedes in Hsorted. apply Hsorted.
rewrite <- (firstn_skipn 5 opps). apply precedes_app. auto.
Qed.

Lemma top_five_are_largest_witness :
  Float64.geb (spread (opportunity "BTC" "a" 0 "d" 70))
              (spread (opportunity "BTC" "a" 0 "b" 10)) = true.
Proof.
apply (top_five_are_largest four_table "BTC" Float64.zero
         [opportunity "BTC" "a" 0 "d" 70;
          opportunity "BTC" "b" 10 "d" 70;
          opportunity "BTC" "c" 30 "d" 70;
          opportunity "BTC" "a" 0 "c" 30;
          opportunity "BTC" "b" 10 "c" 30;
          opportunity "BTC" "a" 0 "b" 10]).
- reflexivity.
- reflexivity.
- left. reflexivity.
- left. reflexivity.
Defined.
